(** * Healthy-diet cost dashboard (src/app.py): a shallow embedding

    The Streamlit script is one pass: load the table, read the filter
    widgets, filter, aggregate, build the chart series, export a CSV and
    write the insight block.  We model

    - a row of the pandas frame as a record (strings are the UTF-8 bytes
      of the value, years are [Z], costs are [Q], standing for the float
      values of the frame);
    - the widget values as a [selection] record;
    - pandas exceptions ([ValueError] of [idxmax] on an empty series,
      [int(nan)]) with a small error monad [result];
    - [groupby(key)[col].mean()] as the sorted distinct keys with the mean
      of each group ([sort=True] is the pandas default);
    - [Series.sort_values] as a relation: any permutation sorted by value
      (numpy's default quicksort leaves the order of ties unspecified). *)

From Stdlib Require Import List String Ascii ZArith QArith Lia.
From Stdlib Require Import Sorting.Permutation Sorting.Sorted DecimalString DecimalZ.
Import ListNotations.

Open Scope string_scope.
Open Scope list_scope.

(** ** Data model *)

(** One row of [price_of_healthy_diet_clean.csv]. *)
Record row := mk_row {
  region : string;
  country : string;
  year : Z;
  cost_category : string;
  cost_healthy_diet_ppp_usd : Q;
  annual_cost_healthy_diet_usd : Q
}.

(** The values of the four sidebar widgets. *)
Record selection := mk_selection {
  selected_regions : list string;
  selected_countries : list string;
  selected_years : Z * Z;
  selected_category : list string
}.

(** Python exceptions raised by the script. *)
Inductive exn := ValueError (msg : string).

Inductive result (A : Type) := Ok (a : A) | Raise (e : exn).
Arguments Ok {A} a.
Arguments Raise {A} e.

Definition bind {A B} (m : result A) (k : A -> result B) : result B :=
  match m with Ok a => k a | Raise e => Raise e end.

Notation "x <- m ;; k" := (bind m (fun x => k))
  (at level 61, m at next level, right associativity).

(** ** pandas primitives *)

(** [Series.isin(values)]. *)
Definition isin (s : string) (values : list string) : bool :=
  existsb (String.eqb s) values.

(** [Series.between(lo, hi)], inclusive on both ends. *)
Definition between (y lo hi : Z) : bool := (lo <=? y)%Z && (y <=? hi)%Z.

(** [Series.unique()]: distinct values in order of first appearance. *)
Fixpoint unique_aux (seen l : list string) : list string :=
  match l with
  | [] => []
  | x :: t => if isin x seen then unique_aux seen t
              else x :: unique_aux (x :: seen) t
  end.

Definition unique (l : list string) : list string := unique_aux [] l.

(** [Series.min()] / [Series.max()] on the integer year column;
    [None] stands for the [nan] of an empty column. *)
Definition series_min (l : list Z) : option Z :=
  match l with [] => None | x :: t => Some (fold_left Z.min t x) end.

Definition series_max (l : list Z) : option Z :=
  match l with [] => None | x :: t => Some (fold_left Z.max t x) end.

(** [int(v)]: raises on [nan]. *)
Definition py_int (v : option Z) : result Z :=
  match v with
  | Some z => Ok z
  | None => Raise (ValueError "cannot convert float NaN to integer")
  end.

(** ** Filters (lines 22-59) *)

(** Lines 54-59: [filtered_df = df[... & ... & ... & ...]]. *)
Definition row_selected (sel : selection) (r : row) : bool :=
  isin (region r) (selected_regions sel) &&
  isin (country r) (selected_countries sel) &&
  between (year r) (fst (selected_years sel)) (snd (selected_years sel)) &&
  isin (cost_category r) (selected_category sel).

Definition filtered_df (df : list row) (sel : selection) : list row :=
  filter (row_selected sel) df.

(** Lines 22-51: the widget defaults.  The country options are the
    countries of [df_region], the rows of the selected regions. *)
Definition default_selection (df : list row) : result selection :=
  let regions := unique (map region df) in
  let df_region := filter (fun r => isin (region r) regions) df in
  let countries := unique (map country df_region) in
  year_min <- py_int (series_min (map year df)) ;;
  year_max <- py_int (series_max (map year df)) ;;
  Ok (mk_selection regions countries (year_min, year_max)
        (unique (map cost_category df))).

(** ** Grouping and reductions *)

Section Grouping.
Context {K : Type} (cmp : K -> K -> comparison).

(** Insertion into a strictly ascending key list, dropping duplicates. *)
Fixpoint insert_key (x : K) (l : list K) : list K :=
  match l with
  | [] => [x]
  | y :: t =>
      match cmp x y with
      | Lt => x :: l
      | Eq => l
      | Gt => y :: insert_key x t
      end
  end.

(** The group keys of [groupby(key)]: distinct and sorted ([sort=True]). *)
Definition group_keys (l : list K) : list K := fold_right insert_key [] l.

Definition same_key (a b : K) : bool :=
  match cmp a b with Eq => true | _ => false end.
End Grouping.

Definition qsum (l : list Q) : Q := fold_right Qplus 0%Q l.

(** Mean of a non-empty group. *)
Definition qmean (l : list Q) : Q := Qdiv (qsum l) (inject_Z (Z.of_nat (List.length l))).

(** [Series.mean()]: [None] is the [nan] of an empty series. *)
Definition series_mean (l : list Q) : option Q :=
  match l with [] => None | _ => Some (qmean l) end.

(** [df.groupby(key)[col].mean()] as a list of (key, mean) in key order. *)
Definition groupby_mean {K} (cmp : K -> K -> comparison) (key : row -> K)
    (col : row -> Q) (view : list row) : list (K * Q) :=
  map (fun k => (k, qmean (map col (filter (fun r => same_key cmp (key r) k) view))))
      (group_keys cmp (map key view)).

Definition qltb (a b : Q) : bool := negb (Qle_bool b a).

(** [Series.idxmax()] / [Series.idxmin()]: numpy's [argmax] keeps the first
    position of the extreme value; an empty series raises. *)
Fixpoint argmax_from {K} (best : K * Q) (l : list (K * Q)) : K * Q :=
  match l with
  | [] => best
  | p :: t => if qltb (snd best) (snd p) then argmax_from p t else argmax_from best t
  end.

Fixpoint argmin_from {K} (best : K * Q) (l : list (K * Q)) : K * Q :=
  match l with
  | [] => best
  | p :: t => if qltb (snd p) (snd best) then argmin_from p t else argmin_from best t
  end.

Definition idxmax {K} (s : list (K * Q)) : result K :=
  match s with
  | [] => Raise (ValueError "attempt to get argmax of an empty sequence")
  | p :: t => Ok (fst (argmax_from p t))
  end.

Definition idxmin {K} (s : list (K * Q)) : result K :=
  match s with
  | [] => Raise (ValueError "attempt to get argmin of an empty sequence")
  | p :: t => Ok (fst (argmin_from p t))
  end.

(** ** Sorting *)

(** [Series.sort_values()]: the result is a permutation of the series
    ordered by value; the relative order of equal values is left to
    numpy's sort. *)
Definition sorted_values_desc {K} (s l : list (K * Q)) : Prop :=
  Permutation s l /\ Sorted (fun a b => Qle (snd b) (snd a)) l.

Definition sorted_values_asc {K} (s l : list (K * Q)) : Prop :=
  Permutation s l /\ Sorted (fun a b => Qle (snd a) (snd b)) l.

(** A stable insertion sort: one of the orders numpy may return; the
    executable pipeline below uses it. *)
Fixpoint insert_by {A} (le : A -> A -> bool) (x : A) (l : list A) : list A :=
  match l with
  | [] => [x]
  | y :: t => if le x y then x :: l else y :: insert_by le x t
  end.

Definition sort_by {A} (le : A -> A -> bool) (l : list A) : list A :=
  fold_right (insert_by le) [] l.

Definition sort_values_desc {K} (s : list (K * Q)) : list (K * Q) :=
  sort_by (fun a b => Qle_bool (snd b) (snd a)) s.

Definition sort_values_asc {K} (s : list (K * Q)) : list (K * Q) :=
  sort_by (fun a b => Qle_bool (snd a) (snd b)) s.

(** [Series.head(10)]. *)
Definition head10 {A} (l : list A) : list A := firstn 10 l.

(** [Series.value_counts()] before its sort: one (value, count) per
    distinct value, in order of first appearance. *)
Definition count_values (l : list string) : list (string * nat) :=
  map (fun k => (k, List.length (filter (String.eqb k) l))) (unique l).

(** [value_counts()] sorts by count, descending; ties in any order. *)
Definition value_counts_of (l : list string) (out : list (string * nat)) : Prop :=
  Permutation (count_values l) out /\ Sorted (fun a b => snd b <= snd a)%nat out.

(** ** The KPI section, charts and insights (lines 66-144) *)

Definition country_avg_cost (view : list row) : list (string * Q) :=
  groupby_mean String.compare country cost_healthy_diet_ppp_usd view.

Definition yearly_avg (view : list row) : list (Z * Q) :=
  groupby_mean Z.compare year cost_healthy_diet_ppp_usd view.

Definition region_avg (view : list row) : list (string * Q) :=
  groupby_mean String.compare region cost_healthy_diet_ppp_usd view.

Definition top10 (view : list row) : list (string * Q) :=
  head10 (sort_values_desc (country_avg_cost view)).

Definition bottom10 (view : list row) : list (string * Q) :=
  head10 (sort_values_asc (country_avg_cost view)).

Definition cat_data (view : list row) : list (string * nat) :=
  sort_by (fun a b => Nat.leb (snd b) (snd a)) (count_values (map cost_category view)).

(** The values interpolated into the four insight sentences. *)
Record insight := mk_insight {
  cost_change : Q;
  highest_region : string;
  insight_highest_country : string;
  insight_lowest_country : string;
  insight_avg_daily : option Q;
  insight_avg_annual : option Q
}.

(** Lines 135-144: the block runs only when both series are non-empty. *)
Definition insights (yearly : list (Z * Q)) (regions : list (string * Q))
    (highest_cost_country lowest_cost_country : string)
    (avg_daily_cost avg_annual_cost : option Q) : option insight :=
  match yearly, regions with
  | y0 :: _, r0 :: _ =>
      let cost_change := Qminus (snd (last yearly y0)) (snd y0) in
      let highest_region := fst (hd r0 (sort_values_desc regions)) in
      Some (mk_insight cost_change highest_region highest_cost_country
              lowest_cost_country avg_daily_cost avg_annual_cost)
  | _, _ => None
  end.

(** Everything the page shows for one filter state. *)
Record view_model := mk_view_model {
  vm_avg_daily_cost : option Q;
  vm_avg_annual_cost : option Q;
  vm_highest_cost_country : string;
  vm_lowest_cost_country : string;
  vm_yearly_avg : list (Z * Q);
  vm_region_avg : list (string * Q);
  vm_top10 : list (string * Q);
  vm_bottom10 : list (string * Q);
  vm_cat_data : list (string * nat);
  vm_box : list row;
  vm_table : list row;
  vm_insights : option insight
}.

(** One run of the script after the widgets have produced [sel]. *)
Definition render (df : list row) (sel : selection) : result view_model :=
  let view := filtered_df df sel in
  let avg_daily_cost := series_mean (map cost_healthy_diet_ppp_usd view) in
  let avg_annual_cost := series_mean (map annual_cost_healthy_diet_usd view) in
  let cavg := country_avg_cost view in
  highest_cost_country <- idxmax cavg ;;
  lowest_cost_country <- idxmin cavg ;;
  let yearly := yearly_avg view in
  let regions := region_avg view in
  Ok (mk_view_model avg_daily_cost avg_annual_cost
        highest_cost_country lowest_cost_country
        yearly regions (top10 view) (bottom10 view) (cat_data view) view view
        (insights yearly regions highest_cost_country lowest_cost_country
           avg_daily_cost avg_annual_cost)).

(** The three-row table of the spec's example scenario. *)
Definition example_df : list row :=
  [ mk_row "Asia" "India" 2020 "Low" 2.5 912;
    mk_row "Asia" "Japan" 2020 "High" 8.0 2920;
    mk_row "Europe" "France" 2021 "High" 9.0 3285 ].

Definition example_selection : selection :=
  mk_selection ["Asia"] ["India"; "Japan"] (2020, 2020)%Z ["Low"; "High"].

(** ** CSV export (lines 124-130) *)

Module Csv.
Local Open Scope list_scope.

Definition sep : ascii := ","%char.
Definition quote : ascii := "034"%char.
Definition nl : ascii := "010"%char.
Definition cr : ascii := "013"%char.

(** The csv module's [QUOTE_MINIMAL]: a field is quoted when it holds
    the delimiter, the quote character or a line break. *)
Definition needs_quote (f : list ascii) : bool :=
  existsb (fun c => Ascii.eqb c sep || Ascii.eqb c quote ||
                    Ascii.eqb c nl || Ascii.eqb c cr) f.

(** [doublequote=True]: a quote inside a quoted field is doubled. *)
Fixpoint escape (f : list ascii) : list ascii :=
  match f with
  | [] => []
  | c :: t => if Ascii.eqb c quote then quote :: quote :: escape t
              else c :: escape t
  end.

Definition write_field (f : string) : list ascii :=
  let l := list_ascii_of_string f in
  if needs_quote l then quote :: escape l ++ [quote] else l.

Fixpoint write_fields (r : list string) : list ascii :=
  match r with
  | [] => []
  | [f] => write_field f
  | f :: t => write_field f ++ sep :: write_fields t
  end.

(** pandas writes ["\n"] after every record, the last one included. *)
Definition write_row (r : list string) : list ascii := write_fields r ++ [nl].

Definition write_rows (rows : list (list string)) : list ascii :=
  flat_map write_row rows.

(** Reading back: a CSV reader with the same dialect. *)
Inductive pstate := FieldStart | Unquoted | Quoted | QuoteInQuoted.

Fixpoint parse_go (s : list ascii) (st : pstate) (fld : list ascii)
    (cur : list string) (acc : list (list string)) : list (list string) :=
  match s with
  | [] =>
      match st, fld, cur with
      | FieldStart, [], [] => acc
      | _, _, _ => acc ++ [cur ++ [string_of_list_ascii fld]]
      end
  | c :: t =>
      match st with
      | Quoted =>
          if Ascii.eqb c quote then parse_go t QuoteInQuoted fld cur acc
          else parse_go t Quoted (fld ++ [c]) cur acc
      | _ =>
          if Ascii.eqb c sep then
            parse_go t FieldStart [] (cur ++ [string_of_list_ascii fld]) acc
          else if Ascii.eqb c nl then
            parse_go t FieldStart [] [] (acc ++ [cur ++ [string_of_list_ascii fld]])
          else
            match st with
            | FieldStart =>
                if Ascii.eqb c quote then parse_go t Quoted [] cur acc
                else parse_go t Unquoted [c] cur acc
            | QuoteInQuoted =>
                if Ascii.eqb c quote then parse_go t Quoted (fld ++ [quote]) cur acc
                else parse_go t Unquoted (fld ++ [c]) cur acc
            | _ => parse_go t Unquoted (fld ++ [c]) cur acc
            end
      end
  end.

Definition parse_csv (s : list ascii) : list (list string) :=
  parse_go s FieldStart [] [] [].
End Csv.

(** [str(int)] for the year column, and its inverse. *)
Definition str_of_Z (z : Z) : string := NilEmpty.string_of_int (Z.to_int z).

Definition Z_of_str (s : string) : option Z :=
  option_map Z.of_int (NilEmpty.int_of_string s).

Definition csv_columns : list string :=
  ["region"; "country"; "year"; "cost_category";
   "cost_healthy_diet_ppp_usd"; "annual_cost_healthy_diet_usd"].

Definition download_file_name : string := "filtered_healthy_diet_data.csv".
Definition download_mime : string := "text/csv".

Section CsvExport.
(** How the float columns are printed (Python's [repr] of the value). *)
Variable fmt_cost : Q -> string.

Definition row_fields (r : row) : list string :=
  [region r; country r; str_of_Z (year r); cost_category r;
   fmt_cost (cost_healthy_diet_ppp_usd r);
   fmt_cost (annual_cost_healthy_diet_usd r)].

(** [filtered_df.to_csv(index=False).encode("utf-8")]: the header row,
    then one record per row. *)
Definition csv_data (view : list row) : list ascii :=
  Csv.write_rows (csv_columns :: map row_fields view).

(** Reading a record back into a row, given a reader for the costs. *)
Variable parse_cost : string -> option Q.

Definition decode_row (fields : list string) : option row :=
  match fields with
  | [rg; c; y; cat; d; a] =>
      match Z_of_str y, parse_cost d, parse_cost a with
      | Some y', Some d', Some a' => Some (mk_row rg c y' cat d' a')
      | _, _, _ => None
      end
  | _ => None
  end.

Fixpoint decode_rows (rows : list (list string)) : option (list row) :=
  match rows with
  | [] => Some []
  | f :: t =>
      match decode_row f, decode_rows t with
      | Some r, Some rs => Some (r :: rs)
      | _, _ => None
      end
  end.
End CsvExport.

(** A textual form of a rational cost ("num/den") and its reader; used
    to exercise the round trip of the export on concrete tables. *)
Definition q_text (q : Q) : string :=
  str_of_Z (Qnum q) ++ "/" ++ str_of_Z (Zpos (Qden q)).

Fixpoint split_slash (s : string) : string * string :=
  match s with
  | EmptyString => (EmptyString, EmptyString)
  | String c t =>
      if Ascii.eqb c "/"%char then (EmptyString, t)
      else let (a, b) := split_slash t in (String c a, b)
  end.

Definition q_of_text (s : string) : option Q :=
  let (a, b) := split_slash s in
  match Z_of_str a, Z_of_str b with
  | Some n, Some (Zpos d) => Some (Qmake n d)
  | _, _ => None
  end.

(** No two entries of a series share a value. *)
Fixpoint distinct_means {K} (s : list (K * Q)) : bool :=
  match s with
  | [] => true
  | p :: t => forallb (fun q => negb (Qeq_bool (snd p) (snd q))) t && distinct_means t
  end.

(** Two series have no index label in common. *)
Definition keys_disjoint {K} (a b : list (K * Q)) : Prop :=
  forall k, In k (map fst a) -> In k (map fst b) -> False.

(** Concrete tables: one row per country, the i-th country (in name
    order) with daily cost [i] (or a flat cost of 1). *)
Definition letters : list string :=
  ["A"; "B"; "C"; "D"; "E"; "F"; "G"; "H"; "I"; "J";
   "K"; "L"; "M"; "N"; "O"; "P"; "Q"; "R"; "S"; "T"].

Fixpoint ranked_rows (names : list string) (i : Z) : list row :=
  match names with
  | [] => []
  | c :: t => mk_row "Asia" c 2020 "Low" (inject_Z i) (inject_Z (365 * i))
              :: ranked_rows t (i + 1)
  end.

Definition view11 : list row := ranked_rows (firstn 11 letters) 1.
Definition view20 : list row := ranked_rows letters 1.
Definition flat_view20 : list row :=
  map (fun c => mk_row "Asia" c 2020 "Low" 1 365) letters.

(** Two countries tied at the same mean, listed out of name order. *)
Definition tie_view : list row :=
  [ mk_row "Asia" "Japan" 2020 "High" 5 1825;
    mk_row "Asia" "India" 2020 "Low" 5 1825;
    mk_row "Asia" "Nepal" 2021 "Low" 3 1095 ].

(** The example table with every region deselected. *)
Definition no_region_selection : selection :=
  mk_selection [] ["India"; "Japan"; "France"] (2020, 2021)%Z ["Low"; "High"].

(** [narrow] keeps at most what [wide] keeps in every widget: fewer
    regions, countries and categories, and a year range inside the other. *)
Definition selection_within (narrow wide : selection) : bool :=
  forallb (fun x => isin x (selected_regions wide)) (selected_regions narrow) &&
  forallb (fun x => isin x (selected_countries wide)) (selected_countries narrow) &&
  (fst (selected_years wide) <=? fst (selected_years narrow))%Z &&
  (snd (selected_years narrow) <=? snd (selected_years wide))%Z &&
  forallb (fun x => isin x (selected_category wide)) (selected_category narrow).

(** The example table with every widget at a wide setting. *)
Definition wide_selection : selection :=
  mk_selection ["Asia"; "Europe"] ["India"; "Japan"; "France"] (2019, 2022)%Z ["Low"; "High"].

(** * Proofs *)

(** ** Membership helpers *)

Lemma isin_true (s : string) (l : list string) : isin s l = true <-> In s l.
Proof.
  unfold isin. rewrite existsb_exists. split.
  - intros (x & Hx & He). apply String.eqb_eq in He. subst. exact Hx.
  - intros H. exists s. split; [exact H | apply String.eqb_refl].
Qed.

Lemma between_true (y lo hi : Z) : between y lo hi = true <-> (lo <= y <= hi)%Z.
Proof.
  unfold between. rewrite Bool.andb_true_iff, !Z.leb_le. tauto.
Qed.

Lemma In_unique_aux (y : string) (seen l : list string) :
  In y (unique_aux seen l) <-> In y l /\ ~ In y seen.
Proof.
  revert seen. induction l as [|x t IH]; intros seen; simpl.
  - tauto.
  - destruct (isin x seen) eqn:Hx.
    + apply isin_true in Hx. rewrite IH. split.
      * tauto.
      * intros [[<- | Ht] Hs]; [contradiction | tauto].
    + simpl. rewrite IH. simpl. split.
      * intros [<- | [Ht Hs]]; [split; [left; reflexivity | ] | tauto].
        intros Hin. apply (proj2 (isin_true x seen)) in Hin. congruence.
      * intros [[<- | Ht] Hs]; [left; reflexivity | ].
        destruct (String.eqb_spec x y) as [-> | Hne]; [left; reflexivity | ].
        right. split; [exact Ht | intros [E | E]; [congruence | contradiction]].
Qed.

Lemma In_unique (y : string) (l : list string) : In y (unique l) <-> In y l.
Proof. unfold unique. rewrite In_unique_aux. simpl. tauto. Qed.

Lemma NoDup_unique_aux (seen l : list string) : NoDup (unique_aux seen l).
Proof.
  revert seen. induction l as [|x t IH]; intros seen; simpl.
  - constructor.
  - destruct (isin x seen); [apply IH | ].
    constructor; [ | apply IH].
    rewrite In_unique_aux. simpl. tauto.
Qed.

Lemma fold_min_le (l : list Z) (x : Z) :
  (fold_left Z.min l x <= x)%Z /\ Forall (fun y => fold_left Z.min l x <= y)%Z l.
Proof.
  revert x. induction l as [|a t IH]; intros x; simpl.
  - split; [lia | constructor].
  - destruct (IH (Z.min x a)) as [H1 H2]. split; [lia | constructor; [lia | exact H2]].
Qed.

Lemma fold_max_ge (l : list Z) (x : Z) :
  (x <= fold_left Z.max l x)%Z /\ Forall (fun y => y <= fold_left Z.max l x)%Z l.
Proof.
  revert x. induction l as [|a t IH]; intros x; simpl.
  - split; [lia | constructor].
  - destruct (IH (Z.max x a)) as [H1 H2]. split; [lia | constructor; [lia | exact H2]].
Qed.

Lemma row_selected_true (sel : selection) (r : row) :
  row_selected sel r = true <->
  In (region r) (selected_regions sel) /\ In (country r) (selected_countries sel) /\
  (fst (selected_years sel) <= year r <= snd (selected_years sel))%Z /\
  In (cost_category r) (selected_category sel).
Proof.
  unfold row_selected. rewrite !Bool.andb_true_iff, !isin_true, between_true. tauto.
Qed.

(** ** C1: the filter *)

(** C1. The filtered view holds exactly the rows of the dataset that pass
    all four predicates (region, country, inclusive year range, category);
    every row left out fails at least one of them. *)
Theorem filtered_df_exact (df : list row) (sel : selection) :
  (forall r, In r (filtered_df df sel) ->
     In r df /\ In (region r) (selected_regions sel) /\
     In (country r) (selected_countries sel) /\
     (fst (selected_years sel) <= year r <= snd (selected_years sel))%Z /\
     In (cost_category r) (selected_category sel)) /\
  (forall r, In r df ->
     In (region r) (selected_regions sel) ->
     In (country r) (selected_countries sel) ->
     (fst (selected_years sel) <= year r <= snd (selected_years sel))%Z ->
     In (cost_category r) (selected_category sel) ->
     In r (filtered_df df sel)) /\
  (forall r, In r df -> ~ In r (filtered_df df sel) ->
     ~ In (region r) (selected_regions sel) \/
     ~ In (country r) (selected_countries sel) \/
     ~ (fst (selected_years sel) <= year r <= snd (selected_years sel))%Z \/
     ~ In (cost_category r) (selected_category sel)).
Proof.
  unfold filtered_df. split; [ | split].
  - intros r Hr. apply filter_In in Hr as [Hin Hs].
    apply row_selected_true in Hs. tauto.
  - intros r Hin H1 H2 H3 H4. apply filter_In. split; [exact Hin | ].
    apply row_selected_true. tauto.
  - intros r Hin Hout.
    destruct (row_selected sel r) eqn:Hs.
    + exfalso. apply Hout, filter_In. tauto.
    + assert (Hn : ~ (In (region r) (selected_regions sel) /\
                     In (country r) (selected_countries sel) /\
                     (fst (selected_years sel) <= year r <= snd (selected_years sel))%Z /\
                     In (cost_category r) (selected_category sel))).
      { rewrite <- row_selected_true. congruence. }
      unfold row_selected in Hs.
      rewrite !Bool.andb_false_iff in Hs.
      destruct Hs as [[[Hs | Hs] | Hs] | Hs].
      * left. rewrite <- isin_true. congruence.
      * right; left. rewrite <- isin_true. congruence.
      * right; right; left. rewrite <- between_true. congruence.
      * right; right; right. rewrite <- isin_true. congruence.
Qed.

(** ** C4: the default selection *)

(** C4. With the widget defaults (all regions, all countries of the
    selected regions, all categories, years from the minimum to the
    maximum), the filtered view is the dataset itself, row for row.  On an
    empty table the defaults cannot be built ([int(nan)] raises), and the
    table is then empty. *)
Theorem default_selection_keeps_df (df : list row) :
  match default_selection df with
  | Ok sel => filtered_df df sel = df
  | Raise _ => df = []
  end.
Proof.
  destruct df as [|r0 t]; [reflexivity | ].
  unfold default_selection.
  change (series_min (map year (r0 :: t)))
    with (Some (fold_left Z.min (map year t) (year r0))).
  change (series_max (map year (r0 :: t)))
    with (Some (fold_left Z.max (map year t) (year r0))).
  cbn [py_int bind]. unfold filtered_df.
  transitivity (filter (fun _ : row => true) (r0 :: t)); [ | apply filter_true].
  apply filter_ext_in.
  intros r Hr. apply row_selected_true.
  cbn [selected_regions selected_countries selected_years selected_category fst snd].
  set (df := r0 :: t) in *.
  assert (Hreg : In (region r) (unique (map region df))).
  { apply In_unique, in_map, Hr. }
  repeat split.
  - exact Hreg.
  - apply In_unique, in_map, filter_In. split; [exact Hr | ].
    apply isin_true, Hreg.
  - destruct Hr as [<- | Hr]; [apply fold_min_le | ].
    destruct (fold_min_le (map year t) (year r0)) as [_ H].
    rewrite Forall_forall in H. apply H, in_map, Hr.
  - destruct Hr as [<- | Hr]; [apply fold_max_ge | ].
    destruct (fold_max_ge (map year t) (year r0)) as [_ H].
    rewrite Forall_forall in H. apply H, in_map, Hr.
  - apply In_unique, in_map, Hr.
Qed.

(** ** Group keys are strictly ascending *)

Section KeyOrder.
Context {K : Type} (cmp : K -> K -> comparison).
Hypothesis cmp_antisym : forall a b, cmp a b = CompOpp (cmp b a).
Hypothesis cmp_eq : forall a b, cmp a b = Eq -> a = b.
Hypothesis cmp_lt_trans : forall a b c, cmp a b = Lt -> cmp b c = Lt -> cmp a c = Lt.

Definition klt (a b : K) : Prop := cmp a b = Lt.

Lemma klt_trans : Transitive klt.
Proof. intros a b c. apply cmp_lt_trans. Qed.

Lemma klt_irrefl (a : K) : ~ klt a a.
Proof.
  unfold klt. intros H. pose proof (cmp_antisym a a) as E.
  rewrite H in E. discriminate.
Qed.

Lemma In_insert_key (x y : K) (l : list K) :
  In y (insert_key cmp x l) <-> x = y \/ In y l.
Proof.
  induction l as [|z t IH]; simpl.
  - tauto.
  - destruct (cmp x z) eqn:E; simpl.
    + apply cmp_eq in E. subst. tauto.
    + tauto.
    + rewrite IH. tauto.
Qed.

Lemma HdRel_insert_key (x y : K) (l : list K) :
  klt y x -> HdRel klt y l -> HdRel klt y (insert_key cmp x l).
Proof.
  intros Hyx Hl. destruct l as [|z t]; simpl.
  - constructor. exact Hyx.
  - destruct (cmp x z); [exact Hl | constructor; exact Hyx | ].
    inversion Hl; subst. constructor. assumption.
Qed.

Lemma Sorted_insert_key (x : K) (l : list K) :
  Sorted klt l -> Sorted klt (insert_key cmp x l).
Proof.
  induction l as [|z t IH]; intros Hs; simpl.
  - repeat constructor.
  - destruct (cmp x z) eqn:E.
    + exact Hs.
    + constructor; [exact Hs | constructor; exact E].
    + apply Sorted_inv in Hs as [Ht Hz].
      constructor; [apply IH, Ht | ].
      apply HdRel_insert_key; [ | exact Hz].
      unfold klt. rewrite cmp_antisym, E. reflexivity.
Qed.

Lemma In_group_keys (y : K) (l : list K) : In y (group_keys cmp l) <-> In y l.
Proof.
  induction l as [|x t IH]; simpl; [tauto | ].
  rewrite In_insert_key, IH. tauto.
Qed.

Lemma StronglySorted_group_keys (l : list K) : StronglySorted klt (group_keys cmp l).
Proof.
  apply Sorted_StronglySorted; [exact klt_trans | ].
  induction l as [|x t IH]; simpl; [constructor | ].
  apply Sorted_insert_key, IH.
Qed.

Lemma StronglySorted_NoDup (l : list K) : StronglySorted klt l -> NoDup l.
Proof.
  induction 1 as [|a t _ IH Hall]; constructor; [ | exact IH].
  intros Hin. rewrite Forall_forall in Hall. apply (klt_irrefl a), Hall, Hin.
Qed.

Lemma groupby_mean_keys (key : row -> K) (col : row -> Q) (view : list row) :
  map fst (groupby_mean cmp key col view) = group_keys cmp (map key view).
Proof. unfold groupby_mean. rewrite map_map. simpl. apply map_id. Qed.

(** Keys of a grouped mean: strictly ascending, one per distinct key. *)
Lemma groupby_mean_keys_spec (key : row -> K) (col : row -> Q) (view : list row) :
  StronglySorted klt (map fst (groupby_mean cmp key col view)) /\
  NoDup (map fst (groupby_mean cmp key col view)) /\
  (forall k, In k (map fst (groupby_mean cmp key col view)) <-> In k (map key view)).
Proof.
  rewrite groupby_mean_keys. split; [ | split].
  - apply StronglySorted_group_keys.
  - apply StronglySorted_NoDup, StronglySorted_group_keys.
  - intros k. apply In_group_keys.
Qed.
End KeyOrder.

Lemma string_compare_lt_trans (a b c : string) :
  String.compare a b = Lt -> String.compare b c = Lt -> String.compare a c = Lt.
Proof.
  revert b c. induction a as [|ca a IH]; intros [|cb b] [|cc c]; simpl;
    intros H1 H2; try discriminate; try reflexivity.
  unfold Ascii.compare in *.
  destruct (N.compare_spec (N_of_ascii ca) (N_of_ascii cb));
  destruct (N.compare_spec (N_of_ascii cb) (N_of_ascii cc));
  destruct (N.compare_spec (N_of_ascii ca) (N_of_ascii cc));
  try discriminate; try lia; eauto.
Qed.

Lemma z_compare_lt_trans (a b c : Z) :
  Z.compare a b = Lt -> Z.compare b c = Lt -> Z.compare a c = Lt.
Proof. rewrite !Z.compare_lt_iff. lia. Qed.

Lemma z_compare_antisym (a b : Z) : Z.compare a b = CompOpp (Z.compare b a).
Proof. apply Z.compare_antisym. Qed.

Lemma z_compare_eq (a b : Z) : Z.compare a b = Eq -> a = b.
Proof. apply Z.compare_eq. Qed.

Lemma StronglySorted_weaken {A} (R S : A -> A -> Prop) (l : list A) :
  (forall a b, R a b -> S a b) -> StronglySorted R l -> StronglySorted S l.
Proof.
  intros HRS. induction 1 as [|a t _ IH Hall]; constructor; [exact IH | ].
  eapply Forall_impl; [ | exact Hall]. intros b. apply HRS.
Qed.

(** ** C10: chart orderings *)

(** C10. The Region Average series has one row per distinct region of the
    view, in strictly ascending (lexicographic, byte-wise) region order;
    the Yearly Trend series has one row per distinct year, in strictly
    ascending year order. *)
Theorem region_yearly_avg_ordered (view : list row) :
  StronglySorted (fun a b => String.compare a b = Lt) (map fst (region_avg view)) /\
  (forall k, In k (map fst (region_avg view)) <-> In k (map region view)) /\
  StronglySorted (fun a b => (a < b)%Z) (map fst (yearly_avg view)) /\
  (forall y, In y (map fst (yearly_avg view)) <-> In y (map year view)).
Proof.
  destruct (groupby_mean_keys_spec String.compare String.compare_antisym
              String.compare_eq_iff string_compare_lt_trans
              region cost_healthy_diet_ppp_usd view) as [Hr [_ Hri]].
  destruct (groupby_mean_keys_spec Z.compare z_compare_antisym z_compare_eq
              z_compare_lt_trans year cost_healthy_diet_ppp_usd view) as [Hy [_ Hyi]].
  split; [exact Hr | split; [exact Hri | split; [ | exact Hyi]]].
  eapply StronglySorted_weaken; [ | exact Hy].
  intros a b H. apply Z.compare_lt_iff, H.
Qed.

(** ** argmax / argmin *)

Lemma qltb_true (a b : Q) : qltb a b = true <-> a < b.
Proof.
  unfold qltb. rewrite Bool.negb_true_iff. split.
  - intros H. apply Qnot_le_lt. intros Hle. apply Qle_bool_iff in Hle. congruence.
  - intros H. destruct (Qle_bool b a) eqn:E; [ | reflexivity].
    apply Qle_bool_iff in E. exfalso. apply (Qlt_not_le a b); assumption.
Qed.

Lemma qltb_false (a b : Q) : qltb a b = false <-> b <= a.
Proof.
  unfold qltb. rewrite Bool.negb_false_iff. apply Qle_bool_iff.
Qed.

Lemma StronglySorted_app_inv {A} (R : A -> A -> Prop) (pre post : list A) (x : A) :
  StronglySorted R (pre ++ x :: post) ->
  (forall a, In a pre -> R a x) /\ (forall b, In b post -> R x b).
Proof.
  induction pre as [|a pre IH]; simpl; intros H.
  - apply StronglySorted_inv in H as [_ Hall]. rewrite Forall_forall in Hall.
    split; [tauto | exact Hall].
  - apply StronglySorted_inv in H as [Hs Hall]. destruct (IH Hs) as [H1 H2].
    split; [ | exact H2]. intros b [<- | Hb]; [ | apply H1, Hb].
    rewrite Forall_forall in Hall. apply Hall, in_elt.
Qed.

(** The position found by [argmax_from]: every value before it is
    strictly smaller, every value after it is no larger. *)
Lemma argmax_from_split {K} (best : K * Q) (t : list (K * Q)) :
  exists pre post, best :: t = pre ++ argmax_from best t :: post /\
    Forall (fun p => snd p < snd (argmax_from best t)) pre /\
    Forall (fun p => snd p <= snd (argmax_from best t)) post.
Proof.
  revert best. induction t as [|p t IH]; intros best; simpl.
  - exists [], []. repeat constructor.
  - destruct (qltb (snd best) (snd p)) eqn:E.
    + apply qltb_true in E. destruct (IH p) as (pre & post & Heq & Hpre & Hpost).
      remember (argmax_from p t) as r eqn:Hr.
      assert (Hp : snd p <= snd r).
      { destruct pre as [|q pre]; simpl in Heq; injection Heq as <- _.
        - apply Qle_refl.
        - inversion Hpre; subst. apply Qlt_le_weak. assumption. }
      exists (best :: pre), post. rewrite Heq. split; [reflexivity | ].
      split; [ | exact Hpost]. constructor; [ | exact Hpre].
      apply Qlt_le_trans with (snd p); assumption.
    + apply qltb_false in E. destruct (IH best) as (pre & post & Heq & Hpre & Hpost).
      remember (argmax_from best t) as r eqn:Hr.
      destruct pre as [|q pre]; simpl in Heq; injection Heq as Hq Ht.
      * exists [], (p :: post). subst t. simpl. rewrite <- Hq in Hpost |- *.
        split; [reflexivity | split; [constructor | constructor; [exact E | exact Hpost]]].
      * subst q. exists (best :: p :: pre), post. subst t. simpl.
        split; [reflexivity | split; [ | exact Hpost]].
        inversion Hpre; subst. constructor; [assumption | constructor; [ | assumption]].
        apply Qle_lt_trans with (snd best); assumption.
Qed.

Lemma argmin_from_split {K} (best : K * Q) (t : list (K * Q)) :
  exists pre post, best :: t = pre ++ argmin_from best t :: post /\
    Forall (fun p => snd (argmin_from best t) < snd p) pre /\
    Forall (fun p => snd (argmin_from best t) <= snd p) post.
Proof.
  revert best. induction t as [|p t IH]; intros best; simpl.
  - exists [], []. repeat constructor.
  - destruct (qltb (snd p) (snd best)) eqn:E.
    + apply qltb_true in E. destruct (IH p) as (pre & post & Heq & Hpre & Hpost).
      remember (argmin_from p t) as r eqn:Hr.
      assert (Hp : snd r <= snd p).
      { destruct pre as [|q pre]; simpl in Heq; injection Heq as <- _.
        - apply Qle_refl.
        - inversion Hpre; subst. apply Qlt_le_weak. assumption. }
      exists (best :: pre), post. rewrite Heq. split; [reflexivity | ].
      split; [ | exact Hpost]. constructor; [ | exact Hpre].
      apply Qle_lt_trans with (snd p); assumption.
    + apply qltb_false in E. destruct (IH best) as (pre & post & Heq & Hpre & Hpost).
      remember (argmin_from best t) as r eqn:Hr.
      destruct pre as [|q pre]; simpl in Heq; injection Heq as Hq Ht.
      * exists [], (p :: post). subst t. simpl. rewrite <- Hq in Hpost |- *.
        split; [reflexivity | split; [constructor | constructor; [exact E | exact Hpost]]].
      * subst q. exists (best :: p :: pre), post. subst t. simpl.
        split; [reflexivity | split; [ | exact Hpost]].
        inversion Hpre; subst. constructor; [assumption | constructor; [ | assumption]].
        apply Qlt_le_trans with (snd best); assumption.
Qed.

Lemma split_extreme (l pre post : list (string * Q)) (km : string) (vm : Q)
    (lt le : Q -> Prop) :
  (forall v, lt v -> le v) -> (forall v, lt v -> ~ v == vm) -> le vm ->
  StronglySorted (fun a b => String.compare a b = Lt) (map fst l) ->
  l = pre ++ (km, vm) :: post ->
  Forall (fun p => lt (snd p)) pre -> Forall (fun p => le (snd p)) post ->
  forall k v, In (k, v) l -> le v /\ (v == vm -> km = k \/ String.compare km k = Lt).
Proof.
  intros Hltle Hltne Hle Hs -> Hpre Hpost k v Hin.
  rewrite map_app in Hs. simpl in Hs.
  destruct (StronglySorted_app_inv _ _ _ _ Hs) as [_ Hafter].
  apply in_app_or in Hin as [Hin | [Hkv | Hin]].
  - rewrite Forall_forall in Hpre. specialize (Hpre _ Hin). simpl in Hpre.
    split; [apply Hltle, Hpre | intros E; exfalso; exact (Hltne _ Hpre E)].
  - injection Hkv as -> ->. split; [exact Hle | left; reflexivity].
  - rewrite Forall_forall in Hpost. specialize (Hpost _ Hin). simpl in Hpost.
    split; [exact Hpost | intros _; right].
    apply Hafter. change k with (fst (k, v)). apply in_map, Hin.
Qed.

Lemma country_avg_cost_keys_sorted (view : list row) :
  StronglySorted (fun a b => String.compare a b = Lt) (map fst (country_avg_cost view)).
Proof.
  apply (groupby_mean_keys_spec String.compare String.compare_antisym
           String.compare_eq_iff string_compare_lt_trans).
Qed.

(** ** C7: tie-break of idxmax / idxmin *)

(** C7. On a non-empty country-mean series, [idxmax] and [idxmin] return
    a country (they are functions of the view, so every evaluation agrees);
    the country has the extreme mean, and among the countries tied at that
    mean it is the first in the series' order, which is the lexicographic
    order of the country names. *)
Theorem country_extremes_first_in_key_order (view : list row)
    (Hne : country_avg_cost view <> []) :
  exists kmax vmax kmin vmin,
    idxmax (country_avg_cost view) = Ok kmax /\
    idxmin (country_avg_cost view) = Ok kmin /\
    In (kmax, vmax) (country_avg_cost view) /\
    In (kmin, vmin) (country_avg_cost view) /\
    (forall k v, In (k, v) (country_avg_cost view) ->
       v <= vmax /\ (v == vmax -> kmax = k \/ String.compare kmax k = Lt)) /\
    (forall k v, In (k, v) (country_avg_cost view) ->
       vmin <= v /\ (v == vmin -> kmin = k \/ String.compare kmin k = Lt)).
Proof.
  pose proof (country_avg_cost_keys_sorted view) as Hs.
  destruct (country_avg_cost view) as [|p t] eqn:Hc; [congruence | ].
  destruct (argmax_from_split p t) as (pre & post & Heq & Hpre & Hpost).
  destruct (argmin_from_split p t) as (pre' & post' & Heq' & Hpre' & Hpost').
  simpl idxmax. simpl idxmin.
  destruct (argmax_from p t) as [km vm].
  destruct (argmin_from p t) as [kn vn].
  exists km, vm, kn, vn. simpl fst in *. simpl snd in *.
  split; [reflexivity | split; [reflexivity | ]].
  split; [rewrite Heq; apply in_elt | split; [rewrite Heq'; apply in_elt | split]].
  - eapply (split_extreme _ pre post km vm (fun v => v < vm) (fun v => v <= vm));
      [ | | | exact Hs | exact Heq | exact Hpre | exact Hpost].
    + intros v. apply Qlt_le_weak.
    + intros v. apply Qlt_not_eq.
    + apply Qle_refl.
  - eapply (split_extreme _ pre' post' kn vn (fun v => vn < v) (fun v => vn <= v));
      [ | | | exact Hs | exact Heq' | exact Hpre' | exact Hpost'].
    + intros v. apply Qlt_le_weak.
    + intros v H E. apply (Qlt_not_eq _ _ H). apply Qeq_sym, E.
    + apply Qle_refl.
Qed.

Lemma country_extremes_first_in_key_order_witness :
  exists kmax vmax kmin vmin,
    idxmax (country_avg_cost tie_view) = Ok kmax /\
    idxmin (country_avg_cost tie_view) = Ok kmin /\
    In (kmax, vmax) (country_avg_cost tie_view) /\
    In (kmin, vmin) (country_avg_cost tie_view) /\
    (forall k v, In (k, v) (country_avg_cost tie_view) ->
       v <= vmax /\ (v == vmax -> kmax = k \/ String.compare kmax k = Lt)) /\
    (forall k v, In (k, v) (country_avg_cost tie_view) ->
       vmin <= v /\ (v == vmin -> kmin = k \/ String.compare kmin k = Lt)).
Proof.
  apply country_extremes_first_in_key_order. vm_compute. intros E. discriminate E.
Defined.

(** On [tie_view], Japan is seen first but India comes first in name order. *)
Example tie_view_idxmax : idxmax (country_avg_cost tie_view) = Ok "India".
Proof. reflexivity. Qed.

(** ** Sorted prefixes of a series *)

Lemma In_firstn_split {A} (n : nat) (l : list A) (x : A) :
  In x (firstn n l) -> exists pre post, l = pre ++ x :: post /\ (List.length pre < n)%nat.
Proof.
  revert l. induction n as [|n IH]; intros l H; [destruct H | ].
  destruct l as [|a l]; [destruct H | ]. simpl in H. destruct H as [<- | H].
  - exists [], l. split; [reflexivity | simpl; lia].
  - destruct (IH l H) as (pre & post & -> & Hlen).
    exists (a :: pre), post. split; [reflexivity | simpl; lia].
Qed.

Lemma Sorted_firstn {A} (R : A -> A -> Prop) (n : nat) (l : list A) :
  Sorted R l -> Sorted R (firstn n l).
Proof.
  revert l. induction n as [|n IH]; intros l Hs; [constructor | ].
  destruct l as [|a l]; [constructor | ]. simpl.
  apply Sorted_inv in Hs as [Hl Ha]. constructor; [apply IH, Hl | ].
  destruct n as [|n]; [constructor | ]. destruct l as [|b l]; [constructor | ].
  simpl. inversion Ha; subst. constructor. assumption.
Qed.

Lemma length_filter_perm {A} (f : A -> bool) (l l' : list A) :
  Permutation l l' -> List.length (filter f l) = List.length (filter f l').
Proof.
  induction 1 as [| x l l' _ IH | x y l | l l' l'' _ IH1 _ IH2]; simpl.
  - reflexivity.
  - destruct (f x); simpl; lia.
  - destruct (f x), (f y); reflexivity.
  - lia.
Qed.

Lemma distinct_means_eq {K} (m : list (K * Q)) (p q : K * Q) :
  distinct_means m = true -> In p m -> In q m -> snd p == snd q -> p = q.
Proof.
  induction m as [|x t IH]; simpl; [tauto | ].
  rewrite Bool.andb_true_iff, forallb_forall. intros [Hall Ht] Hp Hq E.
  destruct Hp as [<- | Hp], Hq as [<- | Hq].
  - reflexivity.
  - specialize (Hall q Hq). apply Qeq_bool_iff in E. rewrite E in Hall. discriminate.
  - specialize (Hall p Hp). apply Qeq_sym, Qeq_bool_iff in E. rewrite E in Hall. discriminate.
  - apply IH; assumption.
Qed.

Lemma distinct_means_NoDup {K} (m : list (K * Q)) : distinct_means m = true -> NoDup m.
Proof.
  induction m as [|x t IH]; simpl; [constructor | ].
  rewrite Bool.andb_true_iff, forallb_forall. intros [Hall Ht].
  constructor; [ | apply IH, Ht]. intros Hx. specialize (Hall x Hx).
  rewrite (proj2 (Qeq_bool_iff (snd x) (snd x)) (Qeq_refl _)) in Hall. discriminate.
Qed.

Lemma NoDup_keys_same {K} (m : list (K * Q)) (k : K) (v1 v2 : Q) :
  NoDup (map fst m) -> In (k, v1) m -> In (k, v2) m -> v1 = v2.
Proof.
  induction m as [|[k' v'] t IH]; simpl; [tauto | ].
  intros Hnd H1 H2. inversion Hnd as [|? ? Hnot Hnd']; subst.
  destruct H1 as [E1 | H1], H2 as [E2 | H2].
  - congruence.
  - injection E1 as -> ->. exfalso. apply Hnot. change k with (fst (k, v2)). apply in_map, H2.
  - injection E2 as -> ->. exfalso. apply Hnot. change k with (fst (k, v1)). apply in_map, H1.
  - apply IH; assumption.
Qed.

Lemma In_map_fst {K V} (k : K) (l : list (K * V)) :
  In k (map fst l) -> exists v, In (k, v) l.
Proof.
  rewrite in_map_iff. intros ([k' v] & E & H). simpl in E. subst. exists v. exact H.
Qed.

Lemma length_filter_app_cons {A} (f : A -> bool) (pre post : list A) (x : A) :
  List.length (filter f (pre ++ x :: post)) =
  (List.length (filter f pre) + (if f x then 1 else 0) + List.length (filter f post))%nat.
Proof.
  rewrite filter_app, length_app. simpl. destruct (f x); simpl; lia.
Qed.

Lemma length_filter_le {A} (f : A -> bool) (l : list A) :
  (List.length (filter f l) <= List.length l)%nat.
Proof.
  induction l as [|a l IH]; simpl; [lia | ]. destruct (f a); simpl; lia.
Qed.

Lemma length_filter_all {A} (f : A -> bool) (l : list A) :
  (forall a, In a l -> f a = true) -> List.length (filter f l) = List.length l.
Proof.
  intros H. rewrite forallb_filter_id; [reflexivity | ]. apply forallb_forall, H.
Qed.

Lemma length_filter_none {A} (f : A -> bool) (l : list A) :
  (forall a, In a l -> f a = false) -> List.length (filter f l) = 0%nat.
Proof.
  induction l as [|a l IH]; simpl; intros H; [reflexivity | ].
  rewrite (H a (or_introl eq_refl)). apply IH. intros b Hb. apply H. right. exact Hb.
Qed.

Lemma desc_trans : Transitive (fun a b : string * Q => snd b <= snd a).
Proof. intros a b c H1 H2. apply Qle_trans with (snd b); assumption. Qed.

Lemma asc_trans : Transitive (fun a b : string * Q => snd a <= snd b).
Proof. intros a b c H1 H2. apply Qle_trans with (snd b); assumption. Qed.

(** With at least 20 entries of pairwise distinct values, the first ten
    of the descending order and the first ten of the ascending order share
    no entry: an entry among the first ten descending has at least ten
    smaller values, one among the first ten ascending has fewer than ten. *)
Lemma head10_keys_disjoint (m ld la : list (string * Q)) :
  NoDup (map fst m) -> distinct_means m = true -> (20 <= List.length m)%nat ->
  sorted_values_desc m ld -> sorted_values_asc m la ->
  keys_disjoint (head10 ld) (head10 la).
Proof.
  intros Hkeys Hdist Hlen [Pd Sd] [Pa Sa] k Hk1 Hk2.
  apply In_map_fst in Hk1 as [v1 H1]. apply In_map_fst in Hk2 as [v2 H2].
  apply In_firstn_split in H1 as (A & B & Eld & HA).
  apply In_firstn_split in H2 as (C & D & Ela & HC).
  assert (Hm1 : In (k, v1) m).
  { apply (Permutation_in _ (Permutation_sym Pd)). rewrite Eld. apply in_elt. }
  assert (Hm2 : In (k, v2) m).
  { apply (Permutation_in _ (Permutation_sym Pa)). rewrite Ela. apply in_elt. }
  pose proof (NoDup_keys_same m k v1 v2 Hkeys Hm1 Hm2) as <-.
  set (v := v1) in *. set (f := fun q : string * Q => qltb (snd q) v).
  pose proof (distinct_means_NoDup m Hdist) as Hnd.
  (* in the descending order, everything after the entry is smaller *)
  assert (HB : forall b, In b B -> f b = true).
  { intros b Hb. apply qltb_true.
    apply Sorted_StronglySorted in Sd; [ | exact desc_trans].
    rewrite Eld in Sd. destruct (StronglySorted_app_inv _ _ _ _ Sd) as [_ Hafter].
    destruct (Qle_lt_or_eq _ _ (Hafter b Hb)) as [Hlt | Heq]; [exact Hlt | ].
    exfalso. assert (Hbm : In b m).
    { apply (Permutation_in _ (Permutation_sym Pd)). rewrite Eld.
      apply in_or_app. right. right. exact Hb. }
    pose proof (distinct_means_eq m _ _ Hdist Hbm Hm1 Heq) as ->.
    apply (Permutation_NoDup Pd) in Hnd. rewrite Eld in Hnd.
    apply NoDup_remove_2 in Hnd. apply Hnd, in_or_app. right. exact Hb. }
  (* in the ascending order, nothing from the entry on is smaller *)
  assert (HD : forall d, In d ((k, v) :: D) -> f d = false).
  { intros d Hd. apply qltb_false.
    apply Sorted_StronglySorted in Sa; [ | exact asc_trans].
    rewrite Ela in Sa. destruct (StronglySorted_app_inv _ _ _ _ Sa) as [_ Hafter].
    destruct Hd as [<- | Hd]; [apply Qle_refl | apply Hafter, Hd]. }
  pose proof (length_filter_perm f _ _ (Permutation_trans (Permutation_sym Pd) Pa)) as Hc.
  rewrite Eld, Ela, !length_filter_app_cons in Hc.
  rewrite (length_filter_all f B HB) in Hc.
  rewrite (HD (k, v) (or_introl eq_refl)) in Hc.
  rewrite (length_filter_none f D (fun d Hd => HD d (or_intror Hd))) in Hc.
  pose proof (length_filter_le f C) as HCle.
  pose proof (Permutation_length Pd) as Hld. rewrite Eld, length_app in Hld. simpl in Hld.
  destruct (f (k, v)); lia.
Qed.

(** ** C3: Top-10 and Bottom-10 *)

(** C3 (as amended).  Whatever order numpy gives to equal means, the
    Top-10 series is the first [min 10 n] entries of the country-mean
    series sorted by descending mean, the Bottom-10 series the first
    [min 10 n] sorted by ascending mean ([n] the number of countries);
    both are contained in the country-mean series; and the two share no
    country as soon as there are at least 20 countries with pairwise
    distinct means. *)
Theorem top10_bottom10_spec (view : list row) (ld la : list (string * Q))
    (Hd : sorted_values_desc (country_avg_cost view) ld)
    (Ha : sorted_values_asc (country_avg_cost view) la) :
  List.length (head10 ld) = Nat.min 10 (List.length (country_avg_cost view)) /\
  List.length (head10 la) = Nat.min 10 (List.length (country_avg_cost view)) /\
  incl (head10 ld) (country_avg_cost view) /\
  incl (head10 la) (country_avg_cost view) /\
  Sorted (fun a b => snd b <= snd a) (head10 ld) /\
  Sorted (fun a b => snd a <= snd b) (head10 la) /\
  ((20 <= List.length (country_avg_cost view))%nat ->
   distinct_means (country_avg_cost view) = true ->
   keys_disjoint (head10 ld) (head10 la)).
Proof.
  destruct Hd as [Pd Sd], Ha as [Pa Sa]. unfold head10.
  split; [rewrite length_firstn, (Permutation_length Pd); reflexivity | ].
  split; [rewrite length_firstn, (Permutation_length Pa); reflexivity | ].
  split; [intros x Hx; apply (Permutation_in _ (Permutation_sym Pd));
          destruct (In_firstn_split _ _ _ Hx) as (pre & post & -> & _); apply in_elt | ].
  split; [intros x Hx; apply (Permutation_in _ (Permutation_sym Pa));
          destruct (In_firstn_split _ _ _ Hx) as (pre & post & -> & _); apply in_elt | ].
  split; [apply Sorted_firstn, Sd | ].
  split; [apply Sorted_firstn, Sa | ].
  intros Hlen Hdist. apply head10_keys_disjoint with (country_avg_cost view);
    [ | exact Hdist | exact Hlen | split; assumption | split; assumption].
  apply StronglySorted_NoDup with String.compare.
  - exact String.compare_antisym.
  - apply country_avg_cost_keys_sorted.
Qed.

Lemma top10_bottom10_spec_witness :
  sorted_values_desc (country_avg_cost view20) (rev (country_avg_cost view20)) /\
  sorted_values_asc (country_avg_cost view20) (country_avg_cost view20) /\
  keys_disjoint (head10 (rev (country_avg_cost view20))) (head10 (country_avg_cost view20)).
Proof.
  assert (Hd : sorted_values_desc (country_avg_cost view20) (rev (country_avg_cost view20))).
  { split; [apply Permutation_rev | ].
    vm_compute; repeat constructor; vm_compute; intros H; discriminate H. }
  assert (Ha : sorted_values_asc (country_avg_cost view20) (country_avg_cost view20)).
  { split; [apply Permutation_refl | ].
    vm_compute; repeat constructor; vm_compute; intros H; discriminate H. }
  split; [exact Hd | split; [exact Ha | ]].
  apply (top10_bottom10_spec view20 _ _ Hd Ha); vm_compute; [lia | reflexivity].
Defined.

(** C3 as first stated fails: with 11 countries, more than 10, the two
    series share nine countries. *)
Lemma top10_bottom10_overlap_11 :
  ~ (forall (view : list row) (ld la : list (string * Q)),
       sorted_values_desc (country_avg_cost view) ld ->
       sorted_values_asc (country_avg_cost view) la ->
       (10 < List.length (country_avg_cost view))%nat ->
       keys_disjoint (head10 ld) (head10 la)).
Proof.
  intros H.
  assert (Hd : sorted_values_desc (country_avg_cost view11) (rev (country_avg_cost view11))).
  { split; [apply Permutation_rev | ].
    vm_compute; repeat constructor; vm_compute; intros E; discriminate E. }
  assert (Ha : sorted_values_asc (country_avg_cost view11) (country_avg_cost view11)).
  { split; [apply Permutation_refl | ].
    vm_compute; repeat constructor; vm_compute; intros E; discriminate E. }
  apply (H view11 _ _ Hd Ha) with "E"; vm_compute; [lia | tauto | tauto].
Qed.

(** Ties: with 20 countries of equal mean, the sorted orders may both be
    the series' own order, and the two series then coincide. *)
Example top10_bottom10_ties_overlap :
  sorted_values_desc (country_avg_cost flat_view20) (country_avg_cost flat_view20) /\
  sorted_values_asc (country_avg_cost flat_view20) (country_avg_cost flat_view20) /\
  List.length (country_avg_cost flat_view20) = 20%nat /\
  ~ keys_disjoint (head10 (country_avg_cost flat_view20)) (head10 (country_avg_cost flat_view20)).
Proof.
  split; [split; [apply Permutation_refl | ] | split; [split; [apply Permutation_refl | ] | ]];
    [vm_compute; repeat constructor; vm_compute; intros E; discriminate E
    |vm_compute; repeat constructor; vm_compute; intros E; discriminate E
    | split; [reflexivity | intros H; apply (H "A"); vm_compute; tauto]].
Qed.

(** ** Insertion sort: the executable order is one of the sorted orders *)

Section SortBy.
Context {A : Type} (le : A -> A -> bool).
Hypothesis le_total : forall a b, le a b = false -> le b a = true.

Lemma Permutation_insert_by (x : A) (l : list A) : Permutation (x :: l) (insert_by le x l).
Proof.
  induction l as [|y t IH]; simpl; [reflexivity | ].
  destruct (le x y); [reflexivity | ].
  transitivity (y :: x :: t); [apply perm_swap | apply perm_skip, IH].
Qed.

Lemma Permutation_sort_by (l : list A) : Permutation l (sort_by le l).
Proof.
  induction l as [|x t IH]; simpl; [reflexivity | ].
  transitivity (x :: sort_by le t); [apply perm_skip, IH | apply Permutation_insert_by].
Qed.

Lemma Sorted_insert_by (x : A) (l : list A) :
  Sorted (fun a b => le a b = true) l -> Sorted (fun a b => le a b = true) (insert_by le x l).
Proof.
  induction l as [|y t IH]; intros Hs; simpl; [repeat constructor | ].
  destruct (le x y) eqn:E; [constructor; [exact Hs | constructor; exact E] | ].
  apply Sorted_inv in Hs as [Ht Hy]. constructor; [apply IH, Ht | ].
  destruct t as [|z t]; simpl; [constructor; apply le_total, E | ].
  destruct (le x z); constructor; [apply le_total, E | inversion Hy; assumption].
Qed.

Lemma Sorted_sort_by (l : list A) : Sorted (fun a b => le a b = true) (sort_by le l).
Proof.
  induction l as [|x t IH]; simpl; [constructor | ]. apply Sorted_insert_by, IH.
Qed.
End SortBy.

Lemma Sorted_weaken {A} (R S : A -> A -> Prop) (l : list A) :
  (forall a b, R a b -> S a b) -> Sorted R l -> Sorted S l.
Proof.
  intros HRS. induction 1 as [|a t _ IH Hd]; constructor; [exact IH | ].
  destruct Hd; constructor. apply HRS. assumption.
Qed.

Lemma sort_values_desc_sorted {K} (s : list (K * Q)) :
  sorted_values_desc s (sort_values_desc s).
Proof.
  split; [apply Permutation_sort_by | ].
  apply Sorted_weaken with (R := fun a b => Qle_bool (snd b) (snd a) = true).
  - intros a b H. apply Qle_bool_iff, H.
  - apply Sorted_sort_by. intros a b E. apply Qle_bool_iff.
    apply Qlt_le_weak, Qnot_le_lt. intros H. apply Qle_bool_iff in H. congruence.
Qed.

Lemma sort_values_asc_sorted {K} (s : list (K * Q)) :
  sorted_values_asc s (sort_values_asc s).
Proof.
  split; [apply Permutation_sort_by | ].
  apply Sorted_weaken with (R := fun a b => Qle_bool (snd a) (snd b) = true).
  - intros a b H. apply Qle_bool_iff, H.
  - apply Sorted_sort_by. intros a b E. apply Qle_bool_iff.
    apply Qlt_le_weak, Qnot_le_lt. intros H. apply Qle_bool_iff in H. congruence.
Qed.

Lemma cat_data_value_counts (view : list row) :
  value_counts_of (map cost_category view) (cat_data view).
Proof.
  split; [apply Permutation_sort_by | ].
  apply Sorted_weaken with (R := fun a b => Nat.leb (snd b) (snd a) = true).
  - intros a b H. apply Nat.leb_le, H.
  - apply Sorted_sort_by. intros a b E. apply Nat.leb_gt in E. apply Nat.leb_le. lia.
Qed.

(** ** C9: the category distribution *)

Lemma isin_cons (x k : string) (u : list string) :
  isin x (k :: u) = String.eqb x k || isin x u.
Proof. reflexivity. Qed.

Lemma count_split (k : string) (u l : list string) :
  ~ In k u ->
  List.length (filter (fun x => isin x (k :: u)) l) =
  (List.length (filter (String.eqb k) l) + List.length (filter (fun x => isin x u) l))%nat.
Proof.
  intros Hk. induction l as [|a l IH]; [reflexivity | ].
  cbn [filter]. rewrite isin_cons, (String.eqb_sym k a).
  destruct (String.eqb_spec a k) as [-> | Hne].
  - destruct (isin k u) eqn:E; [apply isin_true in E; contradiction | ].
    cbn [orb List.length]. rewrite IH. lia.
  - cbn [orb]. destruct (isin a u); cbn [List.length]; rewrite IH; lia.
Qed.

Lemma sum_counts (u l : list string) :
  NoDup u ->
  list_sum (map (fun k => List.length (filter (String.eqb k) l)) u) =
  List.length (filter (fun x => isin x u) l).
Proof.
  induction u as [|k u IH]; intros Hnd; simpl.
  - induction l as [|a l IHl]; simpl; [reflexivity | exact IHl].
  - inversion Hnd as [|? ? Hk Hnd']; subst.
    rewrite IH by exact Hnd'. symmetry. apply count_split, Hk.
Qed.

Lemma count_values_keys (l : list string) : map fst (count_values l) = unique l.
Proof. unfold count_values. rewrite map_map. simpl. apply map_id. Qed.

Lemma count_values_total (l : list string) : list_sum (map snd (count_values l)) = List.length l.
Proof.
  unfold count_values. rewrite map_map. simpl.
  rewrite sum_counts by apply NoDup_unique_aux.
  rewrite forallb_filter_id; [reflexivity | ].
  apply forallb_forall. intros x Hx. apply isin_true, In_unique, Hx.
Qed.

(** C9. Whatever order [value_counts] gives to equal counts, the
    Category Distribution series has one row per distinct cost category
    of the view (no category twice, exactly the categories present), and
    its counts add up to the number of rows of the view. *)
Theorem cat_data_one_row_per_category (view : list row) (out : list (string * nat))
    (H : value_counts_of (map cost_category view) out) :
  NoDup (map fst out) /\
  (forall c, In c (map fst out) <-> In c (map cost_category view)) /\
  list_sum (map snd out) = List.length view.
Proof.
  destruct H as [P _].
  pose proof (Permutation_map fst P) as Pk. rewrite count_values_keys in Pk.
  split; [ | split].
  - apply (Permutation_NoDup Pk), NoDup_unique_aux.
  - intros c. rewrite <- (In_unique c (map cost_category view)). split; intros Hc.
    + apply (Permutation_in _ (Permutation_sym Pk)), Hc.
    + apply (Permutation_in _ Pk), Hc.
  - rewrite <- (Permutation_list_sum (Permutation_map snd P)).
    rewrite count_values_total. apply length_map.
Qed.

Lemma cat_data_one_row_per_category_witness :
  value_counts_of (map cost_category example_df) (cat_data example_df) /\
  list_sum (map snd (cat_data example_df)) = 3%nat.
Proof.
  split; [apply cat_data_value_counts | ].
  apply (cat_data_one_row_per_category example_df _ (cat_data_value_counts example_df)).
Defined.

(** ** C8: the example scenario *)

(** C8. On the spec's three-row table with regions {Asia}, countries
    {India, Japan}, years [2020, 2020] and categories {Low, High}: the
    view is the first two rows, the mean daily cost is 5.25, the highest
    and lowest cost countries are Japan and India, and the Top-10 series
    is [Japan (8.0); India (2.5)], for the script's run and for every
    descending order numpy may produce. *)
Theorem example_scenario_outputs :
  filtered_df example_df example_selection = firstn 2 example_df /\
  (exists vm, render example_df example_selection = Ok vm /\
     vm_table vm = firstn 2 example_df /\
     (exists a, vm_avg_daily_cost vm = Some a /\ a == 5.25) /\
     vm_highest_cost_country vm = "Japan" /\
     vm_lowest_cost_country vm = "India" /\
     map fst (vm_top10 vm) = ["Japan"; "India"] /\
     Forall2 Qeq (map snd (vm_top10 vm)) [8.0; 2.5]) /\
  (forall ld, sorted_values_desc (country_avg_cost (filtered_df example_df example_selection)) ld ->
     map fst (head10 ld) = ["Japan"; "India"] /\
     Forall2 Qeq (map snd (head10 ld)) [8.0; 2.5]).
Proof.
  split; [reflexivity | split].
  - eexists. split; [reflexivity | ]. cbn [vm_table vm_avg_daily_cost
      vm_highest_cost_country vm_lowest_cost_country vm_top10].
    split; [reflexivity | split; [eexists; split; [reflexivity | vm_compute; reflexivity] | ]].
    split; [reflexivity | split; [reflexivity | split; [reflexivity | ]]].
    vm_compute. repeat constructor.
  - intros ld [P S].
    change (country_avg_cost (filtered_df example_df example_selection))
      with [("India", qmean [2.5]); ("Japan", qmean [8.0])] in P.
    apply Permutation_length_2_inv in P as [-> | ->].
    + exfalso. inversion S as [|? ? _ Hd]; subst. inversion Hd as [|? ? Hle]; subst.
      vm_compute in Hle. apply Hle. reflexivity.
    + split; [reflexivity | vm_compute; repeat constructor].
Qed.

(** ** C2 and C5: an empty view *)

(** C2 (the code is at fault).  An empty view does not degrade to
    "no data": [country_avg_cost] is then empty and line 70,
    [country_avg_cost.idxmax()], raises [ValueError], so the script stops
    before the charts and the insight block.  (The means of line 66-67
    only give [nan], which formats without error.) *)
Theorem empty_view_raises (df : list row) (sel : selection)
    (Hempty : filtered_df df sel = []) :
  series_mean (map cost_healthy_diet_ppp_usd (filtered_df df sel)) = None /\
  render df sel = Raise (ValueError "attempt to get argmax of an empty sequence").
Proof.
  unfold render. rewrite Hempty. split; reflexivity.
Qed.

Lemma empty_view_raises_witness :
  filtered_df example_df no_region_selection = [] /\
  render example_df no_region_selection =
    Raise (ValueError "attempt to get argmax of an empty sequence").
Proof.
  split; [reflexivity | ].
  apply (empty_view_raises example_df no_region_selection). reflexivity.
Defined.

Lemma insert_key_not_nil {K} (cmp : K -> K -> comparison) (x : K) (l : list K) :
  insert_key cmp x l <> [].
Proof. destruct l as [|y t]; simpl; [discriminate | destruct (cmp x y); discriminate]. Qed.

Lemma yearly_avg_nil (view : list row) : yearly_avg view = [] -> view = [].
Proof.
  destruct view as [|r t]; [reflexivity | ].
  unfold yearly_avg, groupby_mean. simpl. intros H.
  apply map_eq_nil in H. exfalso. exact (insert_key_not_nil _ _ _ H).
Qed.

(** The insight values: the cost change is the last yearly mean minus the
    first, hence 0 for a single year; no insight without yearly data. *)
Lemma insights_cost_change (yearly : list (Z * Q)) (regions : list (string * Q))
    (hc lc : string) (ad aa : option Q) :
  (yearly = [] -> insights yearly regions hc lc ad aa = None) /\
  (forall y0 i, yearly <> [] -> regions <> [] ->
     hd_error yearly = Some y0 ->
     insights yearly regions hc lc ad aa = Some i ->
     cost_change i = snd (last yearly y0) - snd y0) /\
  (forall y0 i, yearly = [y0] ->
     insights yearly regions hc lc ad aa = Some i -> cost_change i == 0).
Proof.
  split; [intros ->; reflexivity | split].
  - intros y0 i Hy Hr Hhd Hi. destruct yearly as [|y1 t]; [congruence | ].
    destruct regions as [|r0 rs]; [congruence | ].
    simpl in Hhd. injection Hhd as ->. simpl in Hi. injection Hi as <-. reflexivity.
  - intros y0 i -> Hi. destruct regions as [|r0 rs]; [discriminate | ].
    simpl in Hi. injection Hi as <-. simpl. ring.
Qed.

(** C5 (the code is at fault, same defect as C2).  The yearly series is
    empty only when the view is empty, and then the run raises
    [ValueError] at line 70 before it reaches the guarded insight block:
    an error is raised rather than the block being skipped quietly. *)
Theorem empty_yearly_avg_raises (df : list row) (sel : selection)
    (Hy : yearly_avg (filtered_df df sel) = []) :
  render df sel = Raise (ValueError "attempt to get argmax of an empty sequence").
Proof.
  apply yearly_avg_nil in Hy. unfold render. rewrite Hy. reflexivity.
Qed.

Lemma empty_yearly_avg_raises_witness :
  yearly_avg (filtered_df example_df no_region_selection) = [] /\
  render example_df no_region_selection =
    Raise (ValueError "attempt to get argmax of an empty sequence").
Proof.
  split; [reflexivity | ].
  apply (empty_yearly_avg_raises example_df no_region_selection). reflexivity.
Defined.

(** ** C6: the CSV export reads back *)

Lemma existsb_false_forall {A} (f : A -> bool) (l : list A) :
  existsb f l = false -> forall x, In x l -> f x = false.
Proof.
  induction l as [|a l IH]; simpl; [tauto | ].
  rewrite Bool.orb_false_iff. intros [Ha Hl] x [<- | Hx]; [exact Ha | apply IH; assumption].
Qed.

Lemma parse_sep (st : Csv.pstate) (fld : list ascii) (cur : list string)
    (acc : list (list string)) (t : list ascii) :
  st <> Csv.Quoted ->
  Csv.parse_go (Csv.sep :: t) st fld cur acc =
  Csv.parse_go t Csv.FieldStart [] (cur ++ [string_of_list_ascii fld]) acc.
Proof. intros H. destruct st; [reflexivity | reflexivity | congruence | reflexivity]. Qed.

Lemma parse_nl (st : Csv.pstate) (fld : list ascii) (cur : list string)
    (acc : list (list string)) (t : list ascii) :
  st <> Csv.Quoted ->
  Csv.parse_go (Csv.nl :: t) st fld cur acc =
  Csv.parse_go t Csv.FieldStart [] [] (acc ++ [cur ++ [string_of_list_ascii fld]]).
Proof. intros H. destruct st; [reflexivity | reflexivity | congruence | reflexivity]. Qed.

Lemma parse_unquoted (g rest fld : list ascii) (cur : list string) (acc : list (list string)) :
  (forall c, In c g -> Ascii.eqb c Csv.sep = false /\ Ascii.eqb c Csv.nl = false) ->
  Csv.parse_go (g ++ rest) Csv.Unquoted fld cur acc =
  Csv.parse_go rest Csv.Unquoted (fld ++ g) cur acc.
Proof.
  revert fld. induction g as [|c g IH]; intros fld Hg; simpl.
  - rewrite app_nil_r. reflexivity.
  - destruct (Hg c (or_introl eq_refl)) as [Hs Hn]. rewrite Hs, Hn.
    rewrite IH by (intros d Hd; apply Hg; right; exact Hd).
    rewrite <- app_assoc. reflexivity.
Qed.

Lemma parse_quoted (l rest fld : list ascii) (cur : list string) (acc : list (list string)) :
  Csv.parse_go (Csv.escape l ++ Csv.quote :: rest) Csv.Quoted fld cur acc =
  Csv.parse_go rest Csv.QuoteInQuoted (fld ++ l) cur acc.
Proof.
  revert fld. induction l as [|c l IH]; intros fld; simpl.
  - rewrite app_nil_r. reflexivity.
  - destruct (Ascii.eqb c Csv.quote) eqn:E; simpl.
    + apply Ascii.eqb_eq in E. subst c. rewrite IH, <- app_assoc. reflexivity.
    + rewrite E, IH, <- app_assoc. reflexivity.
Qed.

(** One written field reads back as itself, leaving the reader in a state
    where the next delimiter closes it. *)
Lemma parse_field (f : string) (rest : list ascii) (cur : list string)
    (acc : list (list string)) :
  exists st fld, st <> Csv.Quoted /\ string_of_list_ascii fld = f /\
    Csv.parse_go (Csv.write_field f ++ rest) Csv.FieldStart [] cur acc =
    Csv.parse_go rest st fld cur acc.
Proof.
  unfold Csv.write_field.
  pose proof (string_of_list_ascii_of_string f) as Hf.
  destruct (Csv.needs_quote (list_ascii_of_string f)) eqn:Nq.
  - exists Csv.QuoteInQuoted, (list_ascii_of_string f).
    split; [discriminate | split; [exact Hf | ]].
    rewrite <- app_comm_cons, <- app_assoc. simpl. apply parse_quoted.
  - unfold Csv.needs_quote in Nq. pose proof (existsb_false_forall _ _ Nq) as Hc.
    destruct (list_ascii_of_string f) as [|c g] eqn:El.
    + exists Csv.FieldStart, []. split; [discriminate | split; [exact Hf | reflexivity]].
    + exists Csv.Unquoted, (c :: g). split; [discriminate | split; [exact Hf | ]].
      assert (Hall : forall d, In d (c :: g) ->
                Ascii.eqb d Csv.sep = false /\ Ascii.eqb d Csv.nl = false /\
                Ascii.eqb d Csv.quote = false).
      { intros d Hd. specialize (Hc d Hd). simpl in Hc.
        rewrite !Bool.orb_false_iff in Hc. tauto. }
      destruct (Hall c (or_introl eq_refl)) as (Hs & Hn & Hq).
      simpl. rewrite Hs, Hn, Hq.
      apply parse_unquoted. intros d Hd. destruct (Hall d (or_intror Hd)) as (? & ? & _).
      split; assumption.
Qed.

Lemma parse_write_fields (r : list string) :
  r <> [] -> forall rest cur acc,
  Csv.parse_go (Csv.write_fields r ++ Csv.nl :: rest) Csv.FieldStart [] cur acc =
  Csv.parse_go rest Csv.FieldStart [] [] (acc ++ [cur ++ r]).
Proof.
  induction r as [|f r IH]; intros Hne rest cur acc; [congruence | ].
  destruct r as [|g r].
  - simpl. destruct (parse_field f (Csv.nl :: rest) cur acc) as (st & fld & Hst & <- & ->).
    apply parse_nl, Hst.
  - change (Csv.write_fields (f :: g :: r))
      with (Csv.write_field f ++ Csv.sep :: Csv.write_fields (g :: r)).
    rewrite <- app_assoc, <- app_comm_cons.
    destruct (parse_field f (Csv.sep :: Csv.write_fields (g :: r) ++ Csv.nl :: rest) cur acc)
      as (st & fld & Hst & Hfld & ->).
    rewrite parse_sep by exact Hst. rewrite Hfld.
    rewrite IH by discriminate. rewrite <- app_assoc. reflexivity.
Qed.

Lemma parse_write_rows (rows : list (list string)) :
  Forall (fun r => r <> []) rows -> forall acc,
  Csv.parse_go (Csv.write_rows rows) Csv.FieldStart [] [] acc = acc ++ rows.
Proof.
  induction rows as [|r rows IH]; intros Hne acc.
  - rewrite app_nil_r. reflexivity.
  - inversion Hne as [|? ? Hr Hrows]; subst.
    unfold Csv.write_rows. simpl. fold (Csv.write_rows rows).
    unfold Csv.write_row. rewrite <- app_assoc. simpl.
    rewrite parse_write_fields by exact Hr. rewrite IH by exact Hrows.
    rewrite <- app_assoc. reflexivity.
Qed.

Lemma Z_of_str_of_Z (z : Z) : Z_of_str (str_of_Z z) = Some z.
Proof.
  unfold Z_of_str, str_of_Z. rewrite NilEmpty.isi. simpl. rewrite DecimalZ.of_to. reflexivity.
Qed.

(** C6. The downloaded buffer, read back with the same CSV dialect, is the
    header row followed by one record per row of the view, in order, each
    field the text of the row's value; with a reader that inverts the
    printing of the costs, the records decode to the view itself.  The
    file is offered as [filtered_healthy_diet_data.csv] with MIME type
    [text/csv]. *)
Theorem csv_data_round_trip (fmt_cost : Q -> string) (parse_cost : string -> option Q)
    (view : list row)
    (Hcost : Forall (fun r =>
        parse_cost (fmt_cost (cost_healthy_diet_ppp_usd r)) = Some (cost_healthy_diet_ppp_usd r) /\
        parse_cost (fmt_cost (annual_cost_healthy_diet_usd r)) = Some (annual_cost_healthy_diet_usd r))
      view) :
  Csv.parse_csv (csv_data fmt_cost view) = csv_columns :: map (row_fields fmt_cost) view /\
  decode_rows parse_cost (map (row_fields fmt_cost) view) = Some view /\
  download_file_name = "filtered_healthy_diet_data.csv" /\
  download_mime = "text/csv".
Proof.
  split; [ | split; [ | split; reflexivity]].
  - unfold Csv.parse_csv, csv_data. rewrite parse_write_rows; [reflexivity | ].
    constructor; [discriminate | ].
    apply Forall_forall. intros r Hr. apply in_map_iff in Hr as (x & <- & _). discriminate.
  - induction Hcost as [|r view [Hd Ha] _ IH]; [reflexivity | ].
    simpl. unfold decode_row. simpl. rewrite Z_of_str_of_Z, Hd, Ha, IH.
    destruct r; reflexivity.
Qed.

Lemma csv_data_round_trip_witness :
  Csv.parse_csv (csv_data q_text example_df) = csv_columns :: map (row_fields q_text) example_df /\
  decode_rows q_of_text (map (row_fields q_text) example_df) = Some example_df.
Proof.
  destruct (csv_data_round_trip q_text q_of_text example_df) as (H1 & H2 & _).
  - vm_compute. repeat constructor.
  - split; [exact H1 | exact H2].
Defined.

(** ** Further properties of the script *)

(** *** The filter (lines 22-59) *)

Lemma selection_within_true (narrow wide : selection) (r : row) :
  selection_within narrow wide = true ->
  row_selected narrow r = true -> row_selected wide r = true.
Proof.
  unfold selection_within. rewrite !Bool.andb_true_iff, !forallb_forall, !Z.leb_le.
  intros (((( Hreg & Hcty) & Hlo) & Hhi) & Hcat) Hr.
  apply row_selected_true in Hr as (H1 & H2 & H3 & H4).
  apply row_selected_true. split; [ | split; [ | split]].
  - apply isin_true, Hreg, H1.
  - apply isin_true, Hcty, H2.
  - lia.
  - apply isin_true, Hcat, H4.
Qed.

Lemma filter_all_false {A} (f : A -> bool) (l : list A) :
  (forall x, In x l -> f x = false) -> filter f l = [].
Proof.
  induction l as [|a t IH]; intros H; simpl; [reflexivity | ].
  rewrite (H a (or_introl eq_refl)). apply IH. intros x Hx. apply H. right. exact Hx.
Qed.

(** Filtering composes: filtering the view of a wider selection with a
    narrower one gives the narrower selection's view of the table, rows in
    the same order.  With [narrow = wide] this says the filter is
    idempotent. *)
Theorem filtered_df_narrowing (df : list row) (narrow wide : selection)
    (Hw : selection_within narrow wide = true) :
  filtered_df (filtered_df df wide) narrow = filtered_df df narrow.
Proof.
  unfold filtered_df. induction df as [|r t IH]; simpl; [reflexivity | ].
  destruct (row_selected narrow r) eqn:En.
  - rewrite (selection_within_true narrow wide r Hw En). simpl. rewrite En, IH. reflexivity.
  - destruct (row_selected wide r); simpl; [rewrite En | ]; exact IH.
Qed.

Lemma filtered_df_narrowing_witness :
  selection_within example_selection wide_selection = true /\
  filtered_df (filtered_df example_df wide_selection) example_selection =
    filtered_df example_df example_selection.
Proof.
  split; [reflexivity | ].
  apply (filtered_df_narrowing example_df example_selection wide_selection). reflexivity.
Defined.

(** Line 28-35: when the country widget keeps its default (the countries
    of the rows of the selected regions), the country predicate of line 56
    removes nothing: the view is the table filtered by region, year range
    and category alone. *)
Theorem default_countries_filter_nothing (df : list row) (regions : list string)
    (years : Z * Z) (cats : list string) :
  filtered_df df
    (mk_selection regions
       (unique (map country (filter (fun r => isin (region r) regions) df))) years cats) =
  filter (fun r => isin (region r) regions && between (year r) (fst years) (snd years) &&
                   isin (cost_category r) cats) df.
Proof.
  unfold filtered_df. apply filter_ext_in. intros r Hr. unfold row_selected.
  cbn [selected_regions selected_countries selected_years selected_category].
  destruct (isin (region r) regions) eqn:E; [ | reflexivity].
  replace (isin (country r) _) with true; [reflexivity | ].
  symmetry. apply isin_true, In_unique, in_map, filter_In. split; [exact Hr | exact E].
Qed.

(** An empty region, country or category selection, or a year range
    whose start is after its end, leaves no row in the view. *)
Theorem empty_dimension_empty_view (df : list row) (sel : selection)
    (H : selected_regions sel = [] \/ selected_countries sel = [] \/
         selected_category sel = [] \/
         (snd (selected_years sel) < fst (selected_years sel))%Z) :
  filtered_df df sel = [].
Proof.
  unfold filtered_df. apply filter_all_false. intros r _.
  destruct (row_selected sel r) eqn:E; [ | reflexivity].
  apply row_selected_true in E as (H1 & H2 & H3 & H4).
  destruct H as [H | [H | [H | H]]].
  - rewrite H in H1. contradiction.
  - rewrite H in H2. contradiction.
  - rewrite H in H4. contradiction.
  - lia.
Qed.

Lemma empty_dimension_empty_view_witness :
  (selected_regions no_region_selection = [] \/ selected_countries no_region_selection = [] \/
   selected_category no_region_selection = [] \/
   (snd (selected_years no_region_selection) < fst (selected_years no_region_selection))%Z) /\
  filtered_df example_df no_region_selection = [].
Proof.
  split; [left; reflexivity | ].
  apply empty_dimension_empty_view. left. reflexivity.
Defined.

(** *** The widget defaults (lines 22-51) *)

Lemma fold_min_in (l : list Z) (x : Z) : In (fold_left Z.min l x) (x :: l).
Proof.
  revert x. induction l as [|a t IH]; intros x; simpl; [left; reflexivity | ].
  destruct (IH (Z.min x a)) as [E | E].
  - rewrite <- E. destruct (Z.min_spec x a) as [[_ ->] | [_ ->]]; [left | right; left]; reflexivity.
  - right; right. exact E.
Qed.

Lemma fold_max_in (l : list Z) (x : Z) : In (fold_left Z.max l x) (x :: l).
Proof.
  revert x. induction l as [|a t IH]; intros x; simpl; [left; reflexivity | ].
  destruct (IH (Z.max x a)) as [E | E].
  - rewrite <- E. destruct (Z.max_spec x a) as [[_ ->] | [_ ->]]; [right; left | left]; reflexivity.
  - right; right. exact E.
Qed.

Lemma default_countries_all (df : list row) (x : string) :
  In x (unique (map country (filter (fun r => isin (region r) (unique (map region df))) df))) <->
  In x (map country df).
Proof.
  rewrite In_unique, !in_map_iff. split.
  - intros (r & <- & Hr). apply filter_In in Hr as [Hr _]. exists r. tauto.
  - intros (r & <- & Hr). exists r. split; [reflexivity | ].
    apply filter_In. split; [exact Hr | ]. apply isin_true, In_unique, in_map, Hr.
Qed.

(** The default widget values: each option list names every value of its
    column once (the countries of all selected regions are all countries
    of the table), and the default year range runs from a year of the
    table to a year of the table, start not after end. *)
Theorem default_selection_options (df : list row) (sel : selection)
    (H : default_selection df = Ok sel) :
  NoDup (selected_regions sel) /\
  (forall x, In x (selected_regions sel) <-> In x (map region df)) /\
  NoDup (selected_countries sel) /\
  (forall x, In x (selected_countries sel) <-> In x (map country df)) /\
  NoDup (selected_category sel) /\
  (forall x, In x (selected_category sel) <-> In x (map cost_category df)) /\
  In (fst (selected_years sel)) (map year df) /\
  In (snd (selected_years sel)) (map year df) /\
  (fst (selected_years sel) <= snd (selected_years sel))%Z.
Proof.
  destruct df as [|r0 t]; [discriminate | ].
  set (df := r0 :: t) in *.
  assert (E : default_selection df =
    Ok (mk_selection (unique (map region df))
          (unique (map country (filter (fun r => isin (region r) (unique (map region df))) df)))
          (fold_left Z.min (map year t) (year r0), fold_left Z.max (map year t) (year r0))
          (unique (map cost_category df)))) by reflexivity.
  rewrite E in H. injection H as <-.
  cbn [selected_regions selected_countries selected_years selected_category fst snd].
  split; [apply NoDup_unique_aux | split; [intros x; apply In_unique | ]].
  split; [apply NoDup_unique_aux | split; [intros x; exact (default_countries_all df x) | ]].
  split; [apply NoDup_unique_aux | split; [intros x; apply In_unique | ]].
  split; [apply fold_min_in | split; [apply fold_max_in | ]].
  pose proof (proj1 (fold_min_le (map year t) (year r0))).
  pose proof (proj1 (fold_max_ge (map year t) (year r0))). lia.
Qed.

Lemma default_selection_options_witness :
  default_selection example_df =
    Ok (mk_selection ["Asia"; "Europe"] ["India"; "Japan"; "France"] (2020, 2021)%Z
          ["Low"; "High"]) /\
  In 2020%Z (map year example_df) /\ In 2021%Z (map year example_df).
Proof.
  assert (H : default_selection example_df =
    Ok (mk_selection ["Asia"; "Europe"] ["India"; "Japan"; "France"] (2020, 2021)%Z
          ["Low"; "High"])) by reflexivity.
  destruct (default_selection_options _ _ H) as (_ & _ & _ & _ & _ & _ & H1 & H2 & _).
  split; [exact H | split; [exact H1 | exact H2]].
Defined.

(** *** Means (lines 66-67, 69, 84, 91) *)













Lemma group_keys_const {K} (cmp : K -> K -> comparison) (g : K) (l : list K) :
  cmp g g = Eq -> l <> [] -> (forall x, In x l -> x = g) -> group_keys cmp l = [g].
Proof.
  intros Hg. induction l as [|a t IH]; intros Hne Hall; [congruence | ].
  rewrite (Hall a (or_introl eq_refl)). cbn [group_keys fold_right].
  destruct t as [|b t]; [reflexivity | ].
  change (fold_right (insert_key cmp) [] (b :: t)) with (group_keys cmp (b :: t)).
  rewrite IH; [ | discriminate | intros x Hx; apply Hall; right; exact Hx].
  simpl. rewrite Hg. reflexivity.
Qed.



(** *** One run of the script (lines 66-144) *)

Lemma render_ok_inv (df : list row) (sel : selection) (vm : view_model) :
  render df sel = Ok vm ->
  exists p t, country_avg_cost (filtered_df df sel) = p :: t /\
    vm = mk_view_model
           (series_mean (map cost_healthy_diet_ppp_usd (filtered_df df sel)))
           (series_mean (map annual_cost_healthy_diet_usd (filtered_df df sel)))
           (fst (argmax_from p t)) (fst (argmin_from p t))
           (yearly_avg (filtered_df df sel)) (region_avg (filtered_df df sel))
           (top10 (filtered_df df sel)) (bottom10 (filtered_df df sel))
           (cat_data (filtered_df df sel)) (filtered_df df sel) (filtered_df df sel)
           (insights (yearly_avg (filtered_df df sel)) (region_avg (filtered_df df sel))
              (fst (argmax_from p t)) (fst (argmin_from p t))
              (series_mean (map cost_healthy_diet_ppp_usd (filtered_df df sel)))
              (series_mean (map annual_cost_healthy_diet_usd (filtered_df df sel)))).
Proof.
  unfold render, bind, idxmax, idxmin.
  destruct (country_avg_cost (filtered_df df sel)) as [|p t] eqn:E; intros H; [discriminate | ].
  injection H as <-. exists p, t. split; reflexivity.
Qed.

Lemma groupby_mean_not_nil {K} (cmp : K -> K -> comparison) (key : row -> K)
    (col : row -> Q) (view : list row) :
  view <> [] -> groupby_mean cmp key col view <> [].
Proof.
  destruct view as [|r t]; intros Hne; [congruence | ].
  unfold groupby_mean. simpl. intros H.
  apply map_eq_nil in H. exact (insert_key_not_nil _ _ _ H).
Qed.

Lemma render_ok_of_nonempty (df : list row) (sel : selection) :
  filtered_df df sel <> [] -> exists vm, render df sel = Ok vm.
Proof.
  intros Hne. unfold render, bind, idxmax, idxmin.
  destruct (country_avg_cost (filtered_df df sel)) as [|p t] eqn:E.
  - exfalso. exact (groupby_mean_not_nil _ _ _ _ Hne E).
  - eexists. reflexivity.
Qed.

Lemma render_ok_insights (df : list row) (sel : selection) (vm : view_model) :
  render df sel = Ok vm -> vm_insights vm <> None.
Proof.
  intros H. apply render_ok_inv in H as (p & t & E & ->).
  cbn [vm_insights]. intros Hi.
  assert (Hne : filtered_df df sel <> []) by (intros Hv; rewrite Hv in E; discriminate).
  unfold insights in Hi.
  destruct (yearly_avg (filtered_df df sel)) eqn:Ey.
  - exact (groupby_mean_not_nil _ _ _ _ Hne Ey).
  - destruct (region_avg (filtered_df df sel)) eqn:Er; [ | discriminate].
    exact (groupby_mean_not_nil _ _ _ _ Hne Er).
Qed.

(** Lines 69-71 and 135: a run completes exactly when the filtered view
    has a row, and a completed run always writes the insight block (its
    guard never fails once line 70 has been passed). *)
Theorem render_ok_iff_nonempty (df : list row) (sel : selection) :
  ((exists vm, render df sel = Ok vm) <-> filtered_df df sel <> []) /\
  (forall vm, render df sel = Ok vm -> vm_insights vm <> None).
Proof.
  split; [split | ].
  - intros (vm & H). apply render_ok_inv in H as (p & t & E & _).
    intros Hv. rewrite Hv in E. discriminate.
  - apply render_ok_of_nonempty.
  - apply render_ok_insights.
Qed.

Lemma argmax_from_max {K} (p : K * Q) (t : list (K * Q)) :
  In (argmax_from p t) (p :: t) /\ forall q, In q (p :: t) -> snd q <= snd (argmax_from p t).
Proof.
  destruct (argmax_from_split p t) as (pre & post & Heq & Hpre & Hpost).
  rewrite Heq. split; [apply in_elt | ].
  intros q Hq. apply in_app_or in Hq as [Hq | [<- | Hq]].
  - rewrite Forall_forall in Hpre. apply Qlt_le_weak, Hpre, Hq.
  - apply Qle_refl.
  - rewrite Forall_forall in Hpost. apply Hpost, Hq.
Qed.

Lemma argmin_from_min {K} (p : K * Q) (t : list (K * Q)) :
  In (argmin_from p t) (p :: t) /\ forall q, In q (p :: t) -> snd (argmin_from p t) <= snd q.
Proof.
  destruct (argmin_from_split p t) as (pre & post & Heq & Hpre & Hpost).
  rewrite Heq. split; [apply in_elt | ].
  intros q Hq. apply in_app_or in Hq as [Hq | [<- | Hq]].
  - rewrite Forall_forall in Hpre. apply Qlt_le_weak, Hpre, Hq.
  - apply Qle_refl.
  - rewrite Forall_forall in Hpost. apply Hpost, Hq.
Qed.

(** The first entry of a series sorted by descending value has the
    largest value; ascending, the smallest. *)
Lemma sorted_desc_head {K} (s l : list (K * Q)) (p : K * Q) (t : list (K * Q)) :
  sorted_values_desc s l -> l = p :: t ->
  In p s /\ forall q, In q s -> snd q <= snd p.
Proof.
  intros [P S] ->. split.
  - apply (Permutation_in _ (Permutation_sym P)). left. reflexivity.
  - intros q Hq. apply (Permutation_in _ P) in Hq.
    apply Sorted_StronglySorted in S.
    + apply StronglySorted_inv in S as [_ Hall]. rewrite Forall_forall in Hall.
      destruct Hq as [<- | Hq]; [apply Qle_refl | apply Hall, Hq].
    + intros a b c H1 H2. apply Qle_trans with (snd b); assumption.
Qed.

Lemma sorted_asc_head {K} (s l : list (K * Q)) (p : K * Q) (t : list (K * Q)) :
  sorted_values_asc s l -> l = p :: t ->
  In p s /\ forall q, In q s -> snd p <= snd q.
Proof.
  intros [P S] ->. split.
  - apply (Permutation_in _ (Permutation_sym P)). left. reflexivity.
  - intros q Hq. apply (Permutation_in _ P) in Hq.
    apply Sorted_StronglySorted in S.
    + apply StronglySorted_inv in S as [_ Hall]. rewrite Forall_forall in Hall.
      destruct Hq as [<- | Hq]; [apply Qle_refl | apply Hall, Hq].
    + intros a b c H1 H2. apply Qle_trans with (snd b); assumption.
Qed.

Lemma perm_not_nil {A} (l l' : list A) : Permutation l l' -> l <> [] -> l' <> [].
Proof.
  intros P Hne E. subst l'. apply Permutation_sym, Permutation_nil in P. contradiction.
Qed.

(** Lines 70-71, 97 and 103: the Highest and Lowest Cost Country metrics
    name countries of the country-mean series holding its largest and
    smallest mean, and the first bar of the Top-10 chart has the largest
    mean and the first bar of the Bottom-10 chart the smallest, whatever
    country the sort puts there among tied ones. *)
Theorem kpi_extremes_match_charts (df : list row) (sel : selection) (vm : view_model)
    (H : render df sel = Ok vm) :
  exists vmax vmin,
    In (vm_highest_cost_country vm, vmax) (country_avg_cost (filtered_df df sel)) /\
    In (vm_lowest_cost_country vm, vmin) (country_avg_cost (filtered_df df sel)) /\
    (forall k v, In (k, v) (country_avg_cost (filtered_df df sel)) -> vmin <= v /\ v <= vmax) /\
    (exists p, hd_error (vm_top10 vm) = Some p /\ snd p == vmax) /\
    (exists q, hd_error (vm_bottom10 vm) = Some q /\ snd q == vmin).
Proof.
  apply render_ok_inv in H as (p & t & E & ->).
  cbn [vm_highest_cost_country vm_lowest_cost_country vm_top10 vm_bottom10].
  destruct (argmax_from_max p t) as [Hmx Hmax].
  destruct (argmin_from_min p t) as [Hmn Hmin].
  unfold top10, bottom10. rewrite E.
  exists (snd (argmax_from p t)), (snd (argmin_from p t)).
  split; [rewrite <- surjective_pairing; exact Hmx | ].
  split; [rewrite <- surjective_pairing; exact Hmn | ].
  split; [intros k v Hkv; split; [apply (Hmin (k, v) Hkv) | apply (Hmax (k, v) Hkv)] | ].
  split.
  - destruct (sort_values_desc (p :: t)) as [|p' t'] eqn:Es.
    + exfalso. apply (perm_not_nil _ _ (proj1 (sort_values_desc_sorted (p :: t))));
        [discriminate | exact Es].
    + exists p'. split; [reflexivity | ].
      destruct (sorted_desc_head _ _ p' t' (sort_values_desc_sorted (p :: t)) Es) as [Hin Hall].
      apply Qle_antisym; [apply Hmax, Hin | apply Hall, Hmx].
  - destruct (sort_values_asc (p :: t)) as [|p' t'] eqn:Es.
    + exfalso. apply (perm_not_nil _ _ (proj1 (sort_values_asc_sorted (p :: t))));
        [discriminate | exact Es].
    + exists p'. split; [reflexivity | ].
      destruct (sorted_asc_head _ _ p' t' (sort_values_asc_sorted (p :: t)) Es) as [Hin Hall].
      apply Qle_antisym; [apply Hall, Hmn | apply Hmin, Hin].
Qed.

Lemma kpi_extremes_match_charts_witness :
  exists vm, render example_df example_selection = Ok vm /\
  exists vmax vmin,
    In (vm_highest_cost_country vm, vmax) (country_avg_cost (filtered_df example_df example_selection)) /\
    In (vm_lowest_cost_country vm, vmin) (country_avg_cost (filtered_df example_df example_selection)) /\
    (forall k v, In (k, v) (country_avg_cost (filtered_df example_df example_selection)) ->
       vmin <= v /\ v <= vmax) /\
    (exists p, hd_error (vm_top10 vm) = Some p /\ snd p == vmax) /\
    (exists q, hd_error (vm_bottom10 vm) = Some q /\ snd q == vmin).
Proof.
  destruct (render example_df example_selection) as [vm | e] eqn:E; [ | discriminate E].
  exists vm. split; [reflexivity | ].
  apply (kpi_extremes_match_charts example_df example_selection vm E).
Defined.

(** Line 137: the region named in the insight block has the largest mean
    of the Region Average series. *)
Theorem highest_region_is_max (df : list row) (sel : selection) (vm : view_model)
    (i : insight) (H : render df sel = Ok vm) (Hi : vm_insights vm = Some i) :
  exists v, In (highest_region i, v) (vm_region_avg vm) /\
    forall k w, In (k, w) (vm_region_avg vm) -> w <= v.
Proof.
  apply render_ok_inv in H as (p & t & E & ->).
  cbn [vm_insights vm_region_avg] in *. unfold insights in Hi.
  destruct (yearly_avg (filtered_df df sel)) as [|y0 ys]; [discriminate | ].
  destruct (region_avg (filtered_df df sel)) as [|r0 rs] eqn:Er; [discriminate | ].
  injection Hi as <-. cbn [highest_region].
  change (insert_by _ r0 (sort_values_desc rs)) with (sort_values_desc (r0 :: rs)).
  destruct (sort_values_desc (r0 :: rs)) as [|p' t'] eqn:Es.
  - exfalso. apply (perm_not_nil _ _ (proj1 (sort_values_desc_sorted (r0 :: rs))));
      [discriminate | exact Es].
  - destruct (sorted_desc_head _ _ p' t' (sort_values_desc_sorted (r0 :: rs)) Es) as [Hin Hall].
    destruct p' as [k' v']. exists v'. cbn [hd fst]. split; [exact Hin | ].
    intros k w Hkw. apply (Hall (k, w) Hkw).
Qed.

Lemma highest_region_is_max_witness :
  exists vm i, render example_df wide_selection = Ok vm /\ vm_insights vm = Some i /\
  exists v, In (highest_region i, v) (vm_region_avg vm) /\
    forall k w, In (k, w) (vm_region_avg vm) -> w <= v.
Proof.
  destruct (render example_df wide_selection) as [vm | e] eqn:E; [ | discriminate E].
  destruct (vm_insights vm) as [i | ] eqn:Ei.
  - exists vm, i. split; [reflexivity | split; [exact Ei | ]].
    apply (highest_region_is_max example_df wide_selection vm i E Ei).
  - exfalso. injection E as <-. discriminate Ei.
Defined.

Lemma StronglySorted_map_inv {A B} (f : A -> B) (R : B -> B -> Prop) (l : list A) :
  StronglySorted R (map f l) -> StronglySorted (fun a b => R (f a) (f b)) l.
Proof.
  induction l as [|a t IH]; simpl; intros H; [constructor | ].
  apply StronglySorted_inv in H as [Ht Hall]. constructor; [apply IH, Ht | ].
  rewrite Forall_forall in Hall |- *. intros b Hb. apply Hall, in_map, Hb.
Qed.

Lemma In_last {A} (a d : A) (t : list A) : In (last (a :: t) d) (a :: t).
Proof.
  revert a. induction t as [|b t IH]; intros a; [left; reflexivity | ].
  change (last (a :: b :: t) d) with (last (b :: t) d). right. apply IH.
Qed.

(** In a strictly ordered list every element is the last one or comes
    before it. *)
Lemma StronglySorted_last {A} (R : A -> A -> Prop) (a d : A) (t : list A) :
  StronglySorted R (a :: t) ->
  forall x, In x (a :: t) -> x = last (a :: t) d \/ R x (last (a :: t) d).
Proof.
  revert a. induction t as [|b t IH]; intros a H x Hx.
  - destruct Hx as [<- | []]. left. reflexivity.
  - change (last (a :: b :: t) d) with (last (b :: t) d).
    apply StronglySorted_inv in H as [Ht Hall].
    destruct Hx as [<- | Hx]; [ | apply IH; assumption].
    right. rewrite Forall_forall in Hall. apply Hall, In_last.
Qed.

Lemma yearly_avg_sorted (view : list row) :
  StronglySorted (fun a b => (fst a < fst b)%Z) (yearly_avg view) /\
  (forall y, In y (map fst (yearly_avg view)) <-> In y (map year view)).
Proof.
  destruct (groupby_mean_keys_spec Z.compare z_compare_antisym z_compare_eq
              z_compare_lt_trans year cost_healthy_diet_ppp_usd view) as [Hy [_ Hyi]].
  split; [ | exact Hyi].
  apply StronglySorted_map_inv with (R := fun a b => (a < b)%Z).
  eapply StronglySorted_weaken; [ | exact Hy].
  intros a b Hab. apply Z.compare_lt_iff, Hab.
Qed.

(** Line 136: the cost change of the insight block is the mean of the
    latest year of the view minus the mean of its earliest year: the
    first and last rows of the Yearly Trend series are the smallest and
    largest years present in the view (not the slider bounds printed
    beside it). *)
Theorem cost_change_first_last_year (df : list row) (sel : selection) (vm : view_model)
    (i : insight) (H : render df sel = Ok vm) (Hi : vm_insights vm = Some i) :
  exists y0 v0 yl vl,
    hd_error (vm_yearly_avg vm) = Some (y0, v0) /\
    last (vm_yearly_avg vm) (y0, v0) = (yl, vl) /\
    cost_change i = vl - v0 /\
    In y0 (map year (filtered_df df sel)) /\ In yl (map year (filtered_df df sel)) /\
    (forall r, In r (filtered_df df sel) -> (y0 <= year r <= yl)%Z).
Proof.
  apply render_ok_inv in H as (p & t & E & ->).
  cbn [vm_insights vm_yearly_avg] in *. unfold insights in Hi.
  destruct (yearly_avg_sorted (filtered_df df sel)) as [Hs Hkeys].
  destruct (yearly_avg (filtered_df df sel)) as [|[y0 v0] ys] eqn:Ey; [discriminate | ].
  destruct (region_avg (filtered_df df sel)) as [|r0 rs]; [discriminate | ].
  injection Hi as <-. cbn [cost_change].
  destruct (last ((y0, v0) :: ys) (y0, v0)) as [yl vl] eqn:El.
  exists y0, v0, yl, vl. split; [reflexivity | split; [exact El | split; [ | ]]].
  { transitivity (snd (last ((y0, v0) :: ys) (y0, v0)) - v0); [reflexivity | ].
    rewrite El. reflexivity. }
  split; [apply Hkeys; left; reflexivity | split].
  - apply Hkeys. change yl with (fst (yl, vl)). rewrite <- El. apply in_map, In_last.
  - intros r Hr. apply (in_map year) in Hr. apply Hkeys, in_map_iff in Hr as ([y v] & Hyr & Hq).
    cbn [fst] in Hyr. subst y. split.
    + destruct Hq as [Hq | Hq]; [injection Hq as -> _; lia | ].
      apply StronglySorted_inv in Hs as [_ Hall]. rewrite Forall_forall in Hall.
      apply Hall in Hq. cbn [fst] in Hq. lia.
    + destruct (StronglySorted_last _ (y0, v0) (y0, v0) ys Hs _ Hq) as [Hx | Hx];
        rewrite El in Hx; [injection Hx as -> _; lia | cbn [fst] in Hx; lia].
Qed.

Lemma cost_change_first_last_year_witness :
  exists vm i, render example_df wide_selection = Ok vm /\ vm_insights vm = Some i /\
  exists y0 v0 yl vl,
    hd_error (vm_yearly_avg vm) = Some (y0, v0) /\
    last (vm_yearly_avg vm) (y0, v0) = (yl, vl) /\
    cost_change i = vl - v0 /\
    In y0 (map year (filtered_df example_df wide_selection)) /\
    In yl (map year (filtered_df example_df wide_selection)) /\
    (forall r, In r (filtered_df example_df wide_selection) -> (y0 <= year r <= yl)%Z).
Proof.
  destruct (render example_df wide_selection) as [vm | e] eqn:E; [ | discriminate E].
  destruct (vm_insights vm) as [i | ] eqn:Ei.
  - exists vm, i. split; [reflexivity | split; [exact Ei | ]].
    apply (cost_change_first_last_year example_df wide_selection vm i E Ei).
  - exfalso. injection E as <-. discriminate Ei.
Defined.

(** Lines 84 and 136: when every row of the view is from one year, the
    Yearly Trend series has one point and the insight block reports a
    cost change of 0. *)
Theorem single_year_no_change (df : list row) (sel : selection) (vm : view_model)
    (i : insight) (y : Z) (H : render df sel = Ok vm) (Hi : vm_insights vm = Some i)
    (Hy : forall r, In r (filtered_df df sel) -> year r = y) :
  List.length (vm_yearly_avg vm) = 1%nat /\ cost_change i == 0.
Proof.
  apply render_ok_inv in H as (p & t & E & ->).
  cbn [vm_insights vm_yearly_avg] in *.
  assert (Hne : filtered_df df sel <> []) by (intros Hv; rewrite Hv in E; discriminate).
  assert (Ey : exists a, yearly_avg (filtered_df df sel) = [(y, a)]).
  { eexists. unfold yearly_avg, groupby_mean.
    rewrite (group_keys_const Z.compare y); [reflexivity | apply Z.compare_refl | | ].
    - intros Em. apply map_eq_nil in Em. contradiction.
    - intros x Hx. apply in_map_iff in Hx as (r & <- & Hr). apply Hy, Hr. }
  destruct Ey as (a & Ey). rewrite Ey in Hi |- *. split; [reflexivity | ].
  unfold insights in Hi. destruct (region_avg (filtered_df df sel)); [discriminate | ].
  injection Hi as <-. cbn [cost_change last snd]. ring.
Qed.

Lemma single_year_no_change_witness :
  exists vm i, render example_df example_selection = Ok vm /\ vm_insights vm = Some i /\
  (forall r, In r (filtered_df example_df example_selection) -> year r = 2020%Z) /\
  List.length (vm_yearly_avg vm) = 1%nat /\ cost_change i == 0.
Proof.
  assert (Hy : forall r, In r (filtered_df example_df example_selection) -> year r = 2020%Z).
  { intros r Hr. vm_compute in Hr. destruct Hr as [<- | [<- | []]]; reflexivity. }
  destruct (render example_df example_selection) as [vm | e] eqn:E; [ | discriminate E].
  destruct (vm_insights vm) as [i | ] eqn:Ei.
  - exists vm, i. split; [reflexivity | split; [exact Ei | split; [exact Hy | ]]].
    apply (single_year_no_change example_df example_selection vm i 2020%Z E Ei Hy).
  - exfalso. injection E as <-. discriminate Ei.
Defined.

(** Lines 109-110: each slice of the Category Distribution chart counts
    the rows of the view with its category, so every count is at least 1. *)
Theorem cat_data_counts (view : list row) (c : string) (n : nat)
    (H : In (c, n) (cat_data view)) :
  n = List.length (filter (String.eqb c) (map cost_category view)) /\ (1 <= n)%nat.
Proof.
  destruct (cat_data_value_counts view) as [P _].
  apply (Permutation_in _ (Permutation_sym P)) in H.
  unfold count_values in H. apply in_map_iff in H as (k & Ek & Hk).
  injection Ek as -> <-. split; [reflexivity | ].
  apply (proj1 (In_unique c _)) in Hk.
  assert (Hc : In c (filter (String.eqb c) (map cost_category view))).
  { apply filter_In. split; [exact Hk | apply String.eqb_refl]. }
  destruct (filter (String.eqb c) (map cost_category view)); [contradiction | simpl; lia].
Qed.

Lemma cat_data_counts_witness :
  In ("High", 2%nat) (cat_data example_df) /\
  2%nat = List.length (filter (String.eqb "High") (map cost_category example_df)) /\
  (1 <= 2)%nat.
Proof.
  assert (H : In ("High", 2%nat) (cat_data example_df)) by (vm_compute; tauto).
  split; [exact H | apply (cat_data_counts example_df "High" 2%nat H)].
Defined.

(** *** The first run, with the widget defaults *)

Lemma default_selection_selects_all (df : list row) (sel : selection) :
  default_selection df = Ok sel -> filtered_df df sel = df.
Proof.
  intros H. destruct df as [|r0 t]; [discriminate | ].
  set (df := r0 :: t) in *.
  assert (E : default_selection df =
    Ok (mk_selection (unique (map region df))
          (unique (map country (filter (fun r => isin (region r) (unique (map region df))) df)))
          (fold_left Z.min (map year t) (year r0), fold_left Z.max (map year t) (year r0))
          (unique (map cost_category df)))) by reflexivity.
  rewrite E in H. injection H as <-. unfold filtered_df.
  transitivity (filter (fun _ : row => true) df); [ | apply filter_true].
  apply filter_ext_in. intros r Hr. apply row_selected_true.
  cbn [selected_regions selected_countries selected_years selected_category fst snd].
  split; [exact (proj2 (In_unique _ _) (in_map region df r Hr)) | split].
  { exact (proj2 (default_countries_all df _) (in_map country df r Hr)). }
  split; [ | exact (proj2 (In_unique _ _) (in_map cost_category df r Hr))].
  destruct (fold_min_le (map year t) (year r0)) as [Hm1 Hm2].
  destruct (fold_max_ge (map year t) (year r0)) as [HM1 HM2].
  rewrite Forall_forall in Hm2, HM2.
  destruct Hr as [<- | Hr]; [lia | ].
  split; [apply Hm2 | apply HM2]; apply in_map, Hr.
Qed.

(** Lines 22-144 with every widget at its default: on a non-empty table
    the run completes, the table and box plot show the whole table, and
    the insight block is written. *)
Theorem defaults_render_whole_table (df : list row) (Hne : df <> []) :
  exists sel vm, default_selection df = Ok sel /\ render df sel = Ok vm /\
    vm_table vm = df /\ vm_box vm = df /\ vm_insights vm <> None.
Proof.
  destruct (default_selection df) as [sel | e] eqn:Hd.
  - pose proof (default_selection_selects_all df sel Hd) as Hall.
    destruct (render_ok_of_nonempty df sel) as (vm & Hr); [rewrite Hall; exact Hne | ].
    exists sel, vm. split; [reflexivity | split; [exact Hr | ]].
    pose proof (render_ok_insights df sel vm Hr) as Hi.
    apply render_ok_inv in Hr as (p & t & _ & ->). cbn [vm_table vm_box].
    split; [exact Hall | split; [exact Hall | exact Hi]].
  - exfalso. destruct df as [|r0 t]; [congruence | discriminate].
Qed.

Lemma defaults_render_whole_table_witness :
  example_df <> [] /\
  exists sel vm, default_selection example_df = Ok sel /\ render example_df sel = Ok vm /\
    vm_table vm = example_df /\ vm_box vm = example_df /\ vm_insights vm <> None.
Proof.
  assert (Hne : example_df <> []) by discriminate.
  split; [exact Hne | apply defaults_render_whole_table, Hne].
Defined.
